(** * Sharded application of batched functions

    A shallow embedding of [alphafold3/model/components/mapping.py]
    ([sharded_apply], its inner [mapped_fn], and [inference_subbatch]) and the
    properties of its shard planning and shard execution.

    Arrays are immutable values with a dtype, a shape and an element at every
    index.  Argument and output trees are represented by the sequence of their
    leaves, in the order [jax.tree_util.tree_leaves] gives them; the tree
    definition is then the number of leaves.  Calls that the code makes to
    its collaborators ([fun], [hk.eval_shape], [hk.scan]) are recorded in a
    trace carried next to the result.  [sharded_map], which composes
    [hk.vmap] with [sharded_apply], is not part of this development. *)

From Stdlib Require Import ZArith List Bool Lia String.
From stdpp Require Import base list.
Import ListNotations.

#[local] Open Scope Z_scope.

(** ** Exceptions and results *)

Inductive exn : Type :=
| NotImplementedError
| AssertionError
| ValueError
| IndexError
| TypeError
| ZeroDivisionError.

Inductive result (A : Type) : Type :=
| Ok (a : A)
| Raise (e : exn).

Arguments Ok {A} a.
Arguments Raise {A} e.

Definition rbind {A B : Type} (r : result A) (f : A -> result B) : result B :=
  match r with
  | Ok a => f a
  | Raise e => Raise e
  end.

Definition rmap {A B : Type} (f : A -> B) (r : result A) : result B :=
  rbind r (fun a => Ok (f a)).

Definition is_ok {A : Type} (r : result A) : bool :=
  match r with Ok _ => true | Raise _ => false end.

(** ** Arrays *)

Inductive dtype_t : Type := float32 | bfloat16 | int32 | bool_.

Definition dtype_eqb (a b : dtype_t) : bool :=
  match a, b with
  | float32, float32 | bfloat16, bfloat16 | int32, int32 | bool_, bool_ => true
  | _, _ => false
  end.

Record ndarray : Type := mk_ndarray {
  dtype : dtype_t;
  shape : list Z;
  item : list Z -> Z
}.

(** What [hk.eval_shape] returns for a leaf: [jax.ShapeDtypeStruct]. *)
Record shape_dtype : Type := mk_shape_dtype {
  sd_dtype : dtype_t;
  sd_shape : list Z
}.

Definition shape_dtype_of (a : ndarray) : shape_dtype :=
  {| sd_dtype := dtype a; sd_shape := shape a |}.

(** An index is within a shape when it has one coordinate per dimension and
    every coordinate lies in [0, dim). *)
Fixpoint in_boundsb (idx shp : list Z) : bool :=
  match idx, shp with
  | [], [] => true
  | i :: idx', d :: shp' => (0 <=? i) && (i <? d) && in_boundsb idx' shp'
  | _, _ => false
  end.

Definition in_bounds (idx shp : list Z) : Prop :=
  Forall2 (fun i d => 0 <= i < d) idx shp.

(** Element-for-element equality of two arrays. *)
Definition arr_eq (a b : ndarray) : Prop :=
  dtype a = dtype b /\ shape a = shape b /\
  forall idx, in_bounds idx (shape a) -> item a idx = item b idx.

(** [fits u o]: same rank, and no dimension of [u] exceeds that of [o]. *)
Fixpoint fits (u o : list Z) : bool :=
  match u, o with
  | [], [] => true
  | n :: u', d :: o' => (n <=? d) && fits u' o'
  | _, _ => false
  end.

(** Start indices of [jax.lax.dynamic_slice] and [dynamic_update_slice]: a
    negative index counts from the end, and the start is then clamped so that
    the slice lies inside the operand. *)
Definition clamp_start (i d n : Z) : Z :=
  let i' := if i <? 0 then i + d else i in
  Z.max 0 (Z.min i' (d - n)).

(** [jax.lax.dynamic_slice_in_dim(operand, start_index, slice_size, axis)] *)
Definition dynamic_slice_in_dim
    (operand : ndarray) (start_index slice_size : Z) (axis : nat)
  : result ndarray :=
  match shape operand !! axis with
  | None => Raise IndexError
  | Some d =>
      if (0 <=? slice_size) && (slice_size <=? d) then
        let st := clamp_start start_index d slice_size in
        Ok {| dtype := dtype operand;
              shape := <[axis := slice_size]> (shape operand);
              item := fun idx => item operand (alter (Z.add st) axis idx) |}
      else Raise TypeError
  end.

(** [jax.lax.dynamic_update_slice_in_dim(operand, update, start_index, axis)]:
    the update is written at [start_index] along [axis] and at 0 along every
    other axis. *)
Definition lax_dynamic_update_slice_in_dim
    (operand update : ndarray) (start_index : Z) (axis : nat)
  : result ndarray :=
  match shape operand !! axis, shape update !! axis with
  | Some d, Some n =>
      if dtype_eqb (dtype operand) (dtype update)
         && fits (shape update) (shape operand) then
        let st := clamp_start start_index d n in
        Ok {| dtype := dtype operand;
              shape := shape operand;
              item := fun idx =>
                let rel := alter (fun v => v - st) axis idx in
                if in_boundsb rel (shape update) then item update rel
                else item operand idx |}
      else Raise TypeError
  | Some _, None => Raise TypeError
  | None, _ => Raise IndexError
  end.

(** [jnp.zeros(shape, dtype=dtype)] *)
Definition zeros (shp : list Z) (dt : dtype_t) : ndarray :=
  {| dtype := dt; shape := shp; item := fun _ => 0 |}.

(** [jnp.arange(start, stop, step)] for a non-zero step. *)
Definition ceil_div (a b : Z) : Z := - ((- a) / b).

Definition arange (start stop step : Z) : list Z :=
  List.map (fun k => start + Z.of_nat k * step)
           (seq 0 (Z.to_nat (ceil_div (stop - start) step))).

(** The elements of a one-dimensional array, in order. *)
Definition to_list1 (a : ndarray) : list Z :=
  match shape a with
  | [d] => List.map (fun k => item a [Z.of_nat k]) (seq 0 (Z.to_nat d))
  | _ => []
  end.

(** A one-dimensional [int32] array with the given elements. *)
Definition of_list1 (l : list Z) : ndarray :=
  {| dtype := int32;
     shape := [Z.of_nat (length l)];
     item := fun idx =>
       match idx with
       | [i] => nth (Z.to_nat i) l 0
       | _ => 0
       end |}.

(** ** Trace and monad *)

(** [EvCall s n xs inner]: [apply_fun_to_slice(s, n)] called [fun] on the
    input slice [xs]; [inner] is what that call recorded itself.
    [EvScan xs]: [hk.scan] was entered over [xs].
    [EvEvalShape inner]: [hk.eval_shape] ran a thunk abstractly; [inner] is
    what the thunk recorded. *)
#[local] Set Warnings "-register-all".
Inductive event : Type :=
| EvCall (slice_start slice_size : Z) (input_slice : list ndarray)
         (inner : list event)
| EvScan (xs : list Z)
| EvEvalShape (inner : list event).

Definition M (A : Type) : Type := (result A * list event)%type.

Definition ret {A : Type} (a : A) : M A := (Ok a, []).

Definition raise {A : Type} (e : exn) : M A := (Raise e, []).

Definition lift {A : Type} (r : result A) : M A := (r, []).

Definition tell (l : list event) : M unit := (Ok tt, l).

Definition bind {A B : Type} (m : M A) (f : A -> M B) : M B :=
  match m with
  | (Ok a, l) => let (r, l') := f a in (r, l ++ l')
  | (Raise e, l) => (Raise e, l)
  end.

Notation "x <- m ;; k" := (bind m (fun x => k))
  (at level 100, m at next level, right associativity).

Definition value {A : Type} (m : M A) : result A := fst m.
Definition trace {A : Type} (m : M A) : list event := snd m.

(** Keyword arguments: names with their values. *)
Definition kwargs_t : Type := list (string * ndarray).

(** A callable takes the leaves of its positional arguments and its keyword
    arguments, and returns the leaves of its output. *)
Definition callable : Type := list ndarray -> kwargs_t -> M (list ndarray).

(** ** Tree utilities, on leaf sequences *)

Fixpoint sequence {A : Type} (l : list (result A)) : result (list A) :=
  match l with
  | [] => Ok []
  | r :: l' => rbind r (fun a => rbind (sequence l') (fun l'' => Ok (a :: l'')))
  end.

(** [jax.tree.map(f, xs, ys)]: the structures are compared before [f] runs. *)
Definition tree_map2 {A B C : Type} (f : A -> B -> result C)
    (xs : list A) (ys : list B) : result (list C) :=
  if Nat.eqb (length xs) (length ys)
  then sequence (zip_with f xs ys)
  else Raise ValueError.

Definition tree_map3 {A B C D : Type} (f : A -> B -> C -> result D)
    (xs : list A) (ys : list B) (zs : list C) : result (list D) :=
  if Nat.eqb (length xs) (length ys) && Nat.eqb (length xs) (length zs)
  then sequence (zip_with (fun x yz => f x (fst yz) (snd yz)) xs (zip ys zs))
  else Raise ValueError.

(** ** Axis specifications *)

(** An entry of a normalised specification: the sentinel [PROXY], or an axis.
    Axes count from the front: [make_output_shape] cuts the shape at [axis]
    and [axis + 1], which is meaningful for non-negative axes only. *)
Inductive axis_t : Type :=
| PROXY
| Axis (n : nat).

(** A specification as the caller writes it: one entry for every leaf (an
    integer, or [None]), or one entry per leaf. *)
Inductive axes_spec : Type :=
| AxAll (a : option nat)
| AxTree (l : list (option nat)).

(** [jax.api_util.flatten_axes(name, treedef, axes)], for the two forms of
    specification above: an integer or [None] is given to every leaf, and a
    sequence of entries is matched entry by entry with the leaves.
    Specifications that are proper tree prefixes of a nested argument tree
    are not represented. *)
Definition flatten_axes (num_leaves : nat) (axes : axes_spec)
  : result (list (option nat)) :=
  match axes with
  | AxAll a => Ok (replicate num_leaves a)
  | AxTree l => if Nat.eqb (length l) num_leaves then Ok l else Raise ValueError
  end.

Definition _expand_axes {V : Type} (axes : axes_spec) (values : list V)
  : result (list axis_t) :=
  rbind (flatten_axes (length values) axes) (fun flat_axes =>
  Ok (List.map (fun x => match x with None => PROXY | Some n => Axis n end)
               flat_axes)).

Definition _maybe_slice (array : ndarray) (i slice_size : Z) (axis : axis_t)
  : result ndarray :=
  match axis with
  | PROXY => Ok array
  | Axis n => dynamic_slice_in_dim array i slice_size n
  end.

Definition _maybe_get_size (array : ndarray) (axis : axis_t) : result Z :=
  match axis with
  | PROXY => Ok (-1)
  | Axis n =>
      match shape array !! n with
      | Some d => Ok d
      | None => Raise IndexError
      end
  end.

(** Python's [max] of a sequence. *)
Definition max_ (l : list Z) : result Z :=
  match l with
  | [] => Raise ValueError
  | x :: l' => Ok (fold_left Z.max l' x)
  end.

(** Python's [//] and [%] on integers. *)
Definition floordiv (a b : Z) : result Z :=
  if b =? 0 then Raise ZeroDivisionError else Ok (a / b).

Definition pymod (a b : Z) : result Z :=
  if b =? 0 then Raise ZeroDivisionError else Ok (a mod b).

(** ** The collaborators *)

(** [hk.eval_shape(thunk)]: the thunk runs on shapes and dtypes only. *)
Definition eval_shape (thunk : M (list ndarray)) : M (list shape_dtype) :=
  let (r, l) := thunk in (rmap (List.map shape_dtype_of) r, [EvEvalShape l]).

(** [hk.scan(f, init, xs)], as the sequential fold it computes. *)
Fixpoint scan_loop {C Y : Type} (f : C -> Z -> M (C * Y)) (c : C) (xs : list Z)
  : M (C * list Y) :=
  match xs with
  | [] => ret (c, [])
  | x :: xs' =>
      cy <- f c x ;;
      cys <- scan_loop f (fst cy) xs' ;;
      ret (fst cys, snd cy :: snd cys)
  end.

Definition scan {C Y : Type} (f : C -> Z -> M (C * Y)) (init : C) (xs : list Z)
  : M (C * list Y) :=
  _ <- tell [EvScan xs] ;;
  scan_loop f init xs.

(** ** [sharded_apply] *)

Section MappedFn.

Variable fn : callable.
Variable shard_size : Z.
Variable in_axes out_axes : axes_spec.
Variable args : list ndarray.
Variable kwargs : kwargs_t.

Definition in_size_of (in_axes_ : list axis_t) : result Z :=
  rbind (tree_map2 _maybe_get_size args in_axes_) max_.

Definition last_shard_size_of (in_size : Z) : result Z :=
  rbind (pymod in_size shard_size) (fun last_shard_size =>
  Ok (if last_shard_size =? 0 then shard_size else last_shard_size)).

Definition apply_fun_to_slice (in_axes_ : list axis_t)
    (slice_start slice_size : Z) : M (list ndarray) :=
  input_slice <-
    lift (tree_map2
            (fun array axis => _maybe_slice array slice_start slice_size axis)
            args in_axes_) ;;
  let (r, l) := fn input_slice kwargs in
  (r, [EvCall slice_start slice_size input_slice l]).

Definition make_output_shape (num_extra_shards : Z) (axis : axis_t)
    (shard_shape remainder_shape : list Z) : result (list Z) :=
  match axis with
  | PROXY => Raise TypeError
  | Axis n =>
      match shard_shape !! n, remainder_shape !! n with
      | Some a, Some b =>
          Ok (take n shard_shape
              ++ [a * num_extra_shards + b]
              ++ drop (S n) shard_shape)
      | _, _ => Raise IndexError
      end
  end.

Definition dynamic_update_slice_in_dim
    (full_array update : ndarray) (axis : axis_t) (i : Z) : result ndarray :=
  match axis with
  | PROXY => Raise TypeError
  | Axis n => lax_dynamic_update_slice_in_dim full_array update i n
  end.

Definition compute_shard (in_axes_ out_axes_ : list axis_t)
    (outputs : list ndarray) (slice_start slice_size : Z)
  : M (list ndarray) :=
  slice_out <- apply_fun_to_slice in_axes_ slice_start slice_size ;;
  lift (tree_map3
          (fun full_array update axis =>
             dynamic_update_slice_in_dim full_array update axis slice_start)
          outputs slice_out out_axes_).

Definition scan_iteration (in_axes_ out_axes_ : list axis_t)
    (outputs : list ndarray) (i : Z) : M (list ndarray * unit) :=
  new_outputs <- compute_shard in_axes_ out_axes_ outputs i shard_size ;;
  ret (new_outputs, tt).

Definition allocate_buffer (dt : dtype_t) (shp : list Z) : result ndarray :=
  Ok (zeros shp dt).

Definition mapped_fn : M (list ndarray) :=
  in_axes_ <- lift (_expand_axes in_axes args) ;;
  in_size <- lift (in_size_of in_axes_) ;;
  num_extra_shards <- lift (floordiv (in_size - 1) shard_size) ;;
  last_shard_size <- lift (last_shard_size_of in_size) ;;
  remainder_shape_dtype <-
    eval_shape (apply_fun_to_slice in_axes_ 0 last_shard_size) ;;
  let out_dtypes := List.map sd_dtype remainder_shape_dtype in
  let out_shapes := List.map sd_shape remainder_shape_dtype in
  out_axes_ <- lift (_expand_axes out_axes remainder_shape_dtype) ;;
  out_shapes <-
    (if 0 <? num_extra_shards then
       regular_shard_shape_dtype <-
         eval_shape (apply_fun_to_slice in_axes_ 0 shard_size) ;;
       let shard_shapes := List.map sd_shape regular_shard_shape_dtype in
       lift (tree_map3 (make_output_shape num_extra_shards)
                       out_axes_ shard_shapes out_shapes)
     else ret out_shapes) ;;
  let slice_starts := arange 0 (in_size - shard_size + 1) shard_size in
  outputs <- lift (tree_map2 allocate_buffer out_dtypes out_shapes) ;;
  outputs <-
    (if (0 <? length slice_starts)%nat then
       r <- scan (scan_iteration in_axes_ out_axes_) outputs slice_starts ;;
       ret (fst r)
     else ret outputs) ;;
  if negb (last_shard_size =? shard_size) then
    let remainder_start := in_size - last_shard_size in
    compute_shard in_axes_ out_axes_ outputs remainder_start last_shard_size
  else ret outputs.

End MappedFn.

(** [sharded_apply(fun, shard_size, in_axes, out_axes, new_out_axes)]; the
    decorators of [mapped_fn] only set its name and docstring. *)
Definition sharded_apply (fn : callable) (shard_size : option Z)
    (in_axes out_axes : axes_spec) (new_out_axes : bool) : M callable :=
  if new_out_axes then raise NotImplementedError
  else
    match shard_size with
    | None => ret fn
    | Some s => ret (mapped_fn fn s in_axes out_axes)
    end.

(** ** [inference_subbatch] *)

(** The closure [run_module] of [inference_subbatch]: it takes positional
    arguments only. *)
Definition run_module (module : callable) (nonbatched_args : list ndarray)
  : callable :=
  fun batched_args kw =>
    match kw with
    | [] =>
        let args := batched_args ++ nonbatched_args in
        module args []
    | _ :: _ => raise TypeError
    end.

(** [running_init] is the value of [hk.running_init()]. *)
Definition inference_subbatch (module : callable) (subbatch_size : Z)
    (batched_args nonbatched_args : list ndarray)
    (input_subbatch_dim : nat) (output_subbatch_dim : option nat)
    (running_init : bool) : M (list ndarray) :=
  if negb (0 <? length batched_args)%nat then raise AssertionError
  else if running_init then
    let args := batched_args ++ nonbatched_args in
    module args []
  else
    let output_subbatch_dim :=
      match output_subbatch_dim with
      | None => input_subbatch_dim
      | Some d => d
      end in
    sharded_module <-
      sharded_apply (run_module module nonbatched_args) (Some subbatch_size)
                    (AxAll (Some input_subbatch_dim))
                    (AxAll (Some output_subbatch_dim)) false ;;
    sharded_module batched_args [].

(** ** Observations on traces *)

(** The shards executed for real: the calls of [fun] outside [hk.eval_shape],
    each with its start offset and size. *)
Definition shards (l : list event) : list (Z * Z) :=
  flat_map (fun e => match e with
                     | EvCall s n _ _ => [(s, n)]
                     | _ => []
                     end) l.

(** The index ranges [hk.scan] was entered with. *)
Definition scans (l : list event) : list (list Z) :=
  flat_map (fun e => match e with
                     | EvScan xs => [xs]
                     | _ => []
                     end) l.

Definition scan_skipped (l : list event) : Prop := scans l = [].

(** The shards a run is to execute, in order: the full shards at the starts
    [hk.scan] ranges over, then the remainder shard if there is one. *)
Definition shard_schedule (in_size shard_size last_shard_size : Z)
  : list (Z * Z) :=
  List.map (fun i => (i, shard_size))
           (arange 0 (in_size - shard_size + 1) shard_size)
  ++ (if last_shard_size =? shard_size then []
      else [(in_size - last_shard_size, last_shard_size)]).




(** ** Batch-wise functions *)

(** [fn] commutes with slicing on [x]: applied to the rows [i, i+n) of [x]
    along [in_axis] it gives the rows [i, i+n) along [out_axis] of [y], its
    output on the whole of [x].  A vectorised function is of this kind. *)
Definition slices_commute (fn : callable) (kw : kwargs_t)
    (x : ndarray) (in_axis : nat) (y : ndarray) (out_axis : nat)
    (batch_size : Z) : Prop :=
  forall i n, 0 <= i -> 0 < n -> i + n <= batch_size ->
    exists x_slice y_i y_slice,
      dynamic_slice_in_dim x i n in_axis = Ok x_slice /\
      value (fn [x_slice] kw) = Ok [y_i] /\
      dynamic_slice_in_dim y i n out_axis = Ok y_slice /\
      arr_eq y_i y_slice.

(** The buffer [buf] holds the elements of [y] at every index whose
    coordinate along [out_axis] is below [m]. *)
Definition filled_upto (out_axis : nat) (y : ndarray) (m : Z) (buf : ndarray)
  : Prop :=
  dtype buf = dtype y /\ shape buf = shape y /\
  forall idx v, in_bounds idx (shape y) -> idx !! out_axis = Some v -> v < m ->
                item buf idx = item y idx.

(** ** Functions used in examples *)

(** The identity. *)
Definition identity_fn : callable := fun xs _ => ret xs.

(** Reversal of a one-dimensional array: a pure function that mixes batch
    elements. *)
Definition flip1 (a : ndarray) : ndarray :=
  {| dtype := dtype a;
     shape := shape a;
     item := fun idx =>
       match shape a, idx with
       | [d], [i] => item a [d - 1 - i]
       | _, _ => 0
       end |}.

Definition flip_fn : callable := fun xs _ => ret (List.map flip1 xs).

(** Adding a constant to every element. *)
Definition add_const (c : Z) (a : ndarray) : ndarray :=
  {| dtype := dtype a; shape := shape a; item := fun idx => item a idx + c |}.

Definition add_const_fn (c : Z) : callable :=
  fun xs _ => ret (List.map (add_const c) xs).

(** ** [sharded_map] *)

Section ShardedMap.

(** [hk.vmap(fun, in_axes, out_axes, split_rng)], a collaborator: the
    vectorised form of [fun]. *)
Variable hk_vmap : callable -> axes_spec -> axes_spec -> bool -> callable.

Definition sharded_map (fn : callable) (shard_size : option Z)
    (in_axes out_axes : axes_spec) (running_init : bool) : M callable :=
  if running_init then
    ret (hk_vmap fn in_axes out_axes false)
  else
    let vmapped_fun := hk_vmap fn in_axes out_axes true in
    sharded_apply vmapped_fun shard_size in_axes out_axes false.

End ShardedMap.

(** ** Further observations on traces *)

(** The probes: the calls of [fun] made under [hk.eval_shape], each with its
    start offset and size. *)
Definition probes (l : list event) : list (Z * Z) :=
  flat_map (fun e => match e with
                     | EvEvalShape inner => shards inner
                     | _ => []
                     end) l.

(** [tiles from l to]: the shards of [l], in order, are non-empty, each
    starts where the one before ends, and together they cover [from, to). *)
Fixpoint tiles (from : Z) (l : list (Z * Z)) (to : Z) : Prop :=
  match l with
  | [] => from = to
  | (s, n) :: l' => s = from /\ 0 < n /\ tiles (from + n) l' to
  end.

(** The [k]-th shard of a batch: it starts at [k * shard_size] and holds
    [shard_size] elements, or what is left of the batch. *)
Definition nth_shard (batch_size shard_size : Z) (k : nat) : Z * Z :=
  (Z.of_nat k * shard_size,
   Z.min shard_size (batch_size - Z.of_nat k * shard_size)).

(** ** Further functions used in examples *)

(** For a function that acts on every element on its own, such as
    [add_const_fn], the vectorised form is the function itself. *)
Definition vmap_of_elementwise
    (fn : callable) (in_axes out_axes : axes_spec) (split_rng : bool)
  : callable := fn.

(** Adding to every element of [x] the first element of [w]. *)
Definition add_offset (w x : ndarray) : ndarray :=
  {| dtype := dtype x;
     shape := shape x;
     item := fun idx => item x idx + item w [0] |}.

(** A module of two arguments: a batch [x] and an offset [w]. *)
Definition add_offset_fn : callable :=
  fun xs _ =>
    match xs with
    | [x; w] => ret [add_offset w x]
    | _ => raise TypeError
    end.

(** The output axis [inference_subbatch] works with. *)
Definition output_dim_of (input_subbatch_dim : nat)
    (output_subbatch_dim : option nat) : nat :=
  match output_subbatch_dim with
  | None => input_subbatch_dim
  | Some d => d
  end.

(** ** Shard plan *)

(** C2: for [batch_size >= 1] and [shard_size >= 1] the plan computed by
    [mapped_fn] splits the batch exactly: [batch_size = num_extra_shards *
    shard_size + last_shard_size] with [0 < last_shard_size <= shard_size];
    the last shard is a whole shard when [shard_size] divides [batch_size];
    and [num_extra_shards] is [ceil(batch_size / shard_size) - 1] when
    [batch_size > shard_size] and 0 otherwise. *)
Theorem shard_plan_invariant (batch_size shard_size : Z) :
  1 <= batch_size -> 1 <= shard_size ->
  exists num_extra_shards last_shard_size,
    floordiv (batch_size - 1) shard_size = Ok num_extra_shards /\
    last_shard_size_of shard_size batch_size = Ok last_shard_size /\
    batch_size = num_extra_shards * shard_size + last_shard_size /\
    0 < last_shard_size <= shard_size /\
    ((shard_size | batch_size) -> last_shard_size = shard_size) /\
    (shard_size < batch_size ->
       num_extra_shards = ceil_div batch_size shard_size - 1) /\
    (batch_size <= shard_size -> num_extra_shards = 0).
Proof.
  intros Hb Hs.
  unfold floordiv, last_shard_size_of, pymod, ceil_div.
  assert (Hs0 : (shard_size =? 0) = false) by lia.
  rewrite Hs0. cbn [rbind].
  pose proof (Z.div_mod batch_size shard_size ltac:(lia)) as Hdm.
  pose proof (Z.mod_pos_bound batch_size shard_size ltac:(lia)) as Hmb.
  set (q := batch_size / shard_size) in *.
  set (r := batch_size mod shard_size) in *.
  assert (Hq : 0 <= q) by (subst q; apply Z.div_pos; lia).
  destruct (Z.eqb_spec r 0) as [Hr | Hr].
  - (* exact multiple *)
    assert (Hn : (batch_size - 1) / shard_size = q - 1).
    { symmetry. apply (Z.div_unique _ _ _ (shard_size - 1)); lia. }
    assert (Hc : (- batch_size) / shard_size = - q).
    { symmetry. apply (Z.div_unique _ _ _ 0); lia. }
    do 2 eexists. repeat split; try reflexivity; rewrite ?Hn, ?Hc; nia.
  - (* a remainder is left *)
    assert (Hn : (batch_size - 1) / shard_size = q).
    { symmetry. apply (Z.div_unique _ _ _ (r - 1)); lia. }
    assert (Hc : (- batch_size) / shard_size = - q - 1).
    { symmetry. apply (Z.div_unique _ _ _ (shard_size - r)); lia. }
    assert (Hnd : ~ (shard_size | batch_size)).
    { intros [k Hk]. apply Hr. subst r. rewrite Hk. apply Z.mod_mul. lia. }
    do 2 eexists. repeat split; try reflexivity; rewrite ?Hn, ?Hc;
      solve [ nia | intros Hd; destruct (Hnd Hd) ].
Qed.

Lemma shard_plan_invariant_witness :
  exists num_extra_shards last_shard_size,
    floordiv (10 - 1) 3 = Ok num_extra_shards /\
    last_shard_size_of 3 10 = Ok last_shard_size /\
    10 = num_extra_shards * 3 + last_shard_size /\
    0 < last_shard_size <= 3 /\
    ((3 | 10) -> last_shard_size = 3) /\
    (3 < 10 -> num_extra_shards = ceil_div 10 3 - 1) /\
    (10 <= 3 -> num_extra_shards = 0).
Proof. apply (shard_plan_invariant 10 3); lia. Defined.

(** ** Configuration and precondition errors *)

(** C5: with [new_out_axes=True], [sharded_apply] raises
    [NotImplementedError] whatever [fun] and [shard_size] ([None] included)
    are, and its trace is empty: no shard has run and [fun], however
    instrumented, was not called. *)
Theorem new_out_axes_not_implemented
    (fn : callable) (shard_size : option Z) (in_axes out_axes : axes_spec) :
  sharded_apply fn shard_size in_axes out_axes true
  = (Raise NotImplementedError, []).
Proof. reflexivity. Qed.

(** C7: [inference_subbatch] with no batched argument fails its assertion,
    in and out of initialisation mode, with an empty trace: the module,
    however instrumented, was not called. *)
Theorem inference_subbatch_empty_batched
    (module : callable) (subbatch_size : Z) (nonbatched_args : list ndarray)
    (input_subbatch_dim : nat) (output_subbatch_dim : option nat)
    (running_init : bool) :
  inference_subbatch module subbatch_size [] nonbatched_args
                     input_subbatch_dim output_subbatch_dim running_init
  = (Raise AssertionError, []).
Proof. reflexivity. Qed.

(** C8: [sharded_apply(fun, shard_size=None)] returns [fun] itself. *)
Theorem sharded_apply_none_is_fun
    (fn : callable) (in_axes out_axes : axes_spec) :
  sharded_apply fn None in_axes out_axes false = (Ok fn, []).
Proof. reflexivity. Qed.

(** ** Traces of the shard executor *)

Lemma value_bind {A B : Type} (m : M A) (f : A -> M B) :
  value (bind m f)
  = match value m with Ok a => value (f a) | Raise e => Raise e end.
Proof.
  destruct m as [[a | e] l]; cbn; [| reflexivity].
  destruct (f a); reflexivity.
Qed.

Lemma trace_bind {A B : Type} (m : M A) (f : A -> M B) :
  trace (bind m f)
  = trace m ++ match value m with Ok a => trace (f a) | Raise _ => [] end.
Proof.
  destruct m as [[a | e] l]; cbn.
  - destruct (f a); reflexivity.
  - symmetry. apply app_nil_r.
Qed.

Lemma bind_ok {A B : Type} (m : M A) (f : A -> M B) (b : B) :
  value (bind m f) = Ok b ->
  exists a, value m = Ok a /\ value (f a) = Ok b /\
            trace (bind m f) = trace m ++ trace (f a).
Proof.
  rewrite value_bind, trace_bind.
  destruct (value m) as [a | e]; [| discriminate].
  intros H. exists a. auto.
Qed.

Lemma shards_app (l1 l2 : list event) : shards (l1 ++ l2) = shards l1 ++ shards l2.
Proof. apply flat_map_app. Qed.

Lemma scans_app (l1 l2 : list event) : scans (l1 ++ l2) = scans l1 ++ scans l2.
Proof. apply flat_map_app. Qed.

Lemma eval_shape_trace (thunk : M (list ndarray)) :
  trace (eval_shape thunk) = [EvEvalShape (trace thunk)].
Proof. destruct thunk; reflexivity. Qed.

Lemma eval_shape_value (thunk : M (list ndarray)) :
  value (eval_shape thunk) = rmap (List.map shape_dtype_of) (value thunk).
Proof. destruct thunk; reflexivity. Qed.

Lemma apply_fun_to_slice_trace fn args kw in_axes_ s n :
  trace (apply_fun_to_slice fn args kw in_axes_ s n)
  = match tree_map2 (fun array axis => _maybe_slice array s n axis)
                    args in_axes_ with
    | Ok input_slice =>
        [EvCall s n input_slice (trace (fn input_slice kw))]
    | Raise _ => []
    end.
Proof.
  unfold apply_fun_to_slice. rewrite trace_bind. cbn.
  destruct (tree_map2 _ args in_axes_) as [input_slice | e]; [| reflexivity].
  destruct (fn input_slice kw); reflexivity.
Qed.

Lemma apply_fun_to_slice_ok fn args kw in_axes_ s n ys :
  value (apply_fun_to_slice fn args kw in_axes_ s n) = Ok ys ->
  exists input_slice,
    tree_map2 (fun array axis => _maybe_slice array s n axis) args in_axes_
    = Ok input_slice /\
    value (fn input_slice kw) = Ok ys /\
    trace (apply_fun_to_slice fn args kw in_axes_ s n)
    = [EvCall s n input_slice (trace (fn input_slice kw))].
Proof.
  rewrite apply_fun_to_slice_trace.
  unfold apply_fun_to_slice. rewrite value_bind. cbn.
  destruct (tree_map2 _ args in_axes_) as [input_slice | e]; [| discriminate].
  intros H. exists input_slice. repeat split.
  destruct (fn input_slice kw); exact H.
Qed.

Lemma compute_shard_trace fn args kw in_axes_ out_axes_ outputs s n :
  trace (compute_shard fn args kw in_axes_ out_axes_ outputs s n)
  = trace (apply_fun_to_slice fn args kw in_axes_ s n).
Proof.
  unfold compute_shard. rewrite trace_bind.
  destruct (value _); cbn; apply app_nil_r.
Qed.

Lemma compute_shard_ok fn args kw in_axes_ out_axes_ outputs s n out :
  value (compute_shard fn args kw in_axes_ out_axes_ outputs s n) = Ok out ->
  shards (trace (compute_shard fn args kw in_axes_ out_axes_ outputs s n))
  = [(s, n)] /\
  scans (trace (compute_shard fn args kw in_axes_ out_axes_ outputs s n)) = [].
Proof.
  intros H. rewrite compute_shard_trace.
  unfold compute_shard in H. apply bind_ok in H as (ys & Hys & _ & _).
  apply apply_fun_to_slice_ok in Hys as (input_slice & _ & _ & ->).
  split; reflexivity.
Qed.

Lemma scan_iteration_ok fn shard_size args kw in_axes_ out_axes_ outputs i cy :
  value (scan_iteration fn shard_size args kw in_axes_ out_axes_ outputs i)
  = Ok cy ->
  shards (trace (scan_iteration fn shard_size args kw in_axes_ out_axes_
                                outputs i)) = [(i, shard_size)] /\
  scans (trace (scan_iteration fn shard_size args kw in_axes_ out_axes_
                               outputs i)) = [].
Proof.
  unfold scan_iteration. intros H.
  apply bind_ok in H as (o & Ho & _ & ->).
  apply compute_shard_ok in Ho as [Hs1 Hs2].
  rewrite shards_app, scans_app, Hs1, Hs2. split; reflexivity.
Qed.

Lemma scan_loop_ok fn shard_size args kw in_axes_ out_axes_ xs :
  forall outputs r,
    value (scan_loop (scan_iteration fn shard_size args kw in_axes_ out_axes_)
                     outputs xs) = Ok r ->
    shards (trace (scan_loop
                     (scan_iteration fn shard_size args kw in_axes_ out_axes_)
                     outputs xs))
    = List.map (fun i => (i, shard_size)) xs /\
    scans (trace (scan_loop
                    (scan_iteration fn shard_size args kw in_axes_ out_axes_)
                    outputs xs)) = [].
Proof.
  induction xs as [| x xs IH]; intros outputs r H.
  - split; reflexivity.
  - cbn [scan_loop] in *.
    apply bind_ok in H as (cy & Hcy & H & ->).
    apply bind_ok in H as (cys & Hcys & _ & ->).
    apply scan_iteration_ok in Hcy as [Hs1 Hs2].
    apply IH in Hcys as [Hs3 Hs4].
    rewrite !shards_app, !scans_app, Hs1, Hs2, Hs3, Hs4.
    split; cbn; rewrite ?app_nil_r; reflexivity.
Qed.

Lemma trace_lift {A : Type} (r : result A) : trace (lift r) = [].
Proof. reflexivity. Qed.

Ltac bind_step H x Hx :=
  apply bind_ok in H as (x & Hx & H & ->); cbv beta in *.

Lemma mapped_fn_schedule fn shard_size in_axes out_axes args kw out :
  value (mapped_fn fn shard_size in_axes out_axes args kw) = Ok out ->
  exists in_axes_ in_size last_shard_size,
    _expand_axes in_axes args = Ok in_axes_ /\
    in_size_of args in_axes_ = Ok in_size /\
    last_shard_size_of shard_size in_size = Ok last_shard_size /\
    shards (trace (mapped_fn fn shard_size in_axes out_axes args kw))
    = shard_schedule in_size shard_size last_shard_size /\
    scans (trace (mapped_fn fn shard_size in_axes out_axes args kw))
    = match arange 0 (in_size - shard_size + 1) shard_size with
      | [] => []
      | _ :: _ => [arange 0 (in_size - shard_size + 1) shard_size]
      end.
Proof.
  unfold mapped_fn. intros H.
  bind_step H in_axes_ Hax.
  bind_step H in_size Hsize.
  bind_step H num_extra_shards Hnum.
  bind_step H last_shard_size Hlast.
  bind_step H remainder_shape_dtype Hrem.
  bind_step H out_axes_ Hout.
  bind_step H out_shapes Hshapes.
  bind_step H outputs Houtputs.
  bind_step H outputs' Hscan.
  cbn [value lift fst] in Hax, Hsize, Hlast.
  exists in_axes_, in_size, last_shard_size.
  repeat (split; [assumption |]).
  rewrite !shards_app, !scans_app, !trace_lift, !eval_shape_trace.
  assert (Hprobe :
    shards (trace
      (if 0 <? num_extra_shards
       then
        regular_shard_shape_dtype <-
        eval_shape (apply_fun_to_slice fn args kw in_axes_ 0 shard_size);;
        lift
          (tree_map3 (make_output_shape num_extra_shards) out_axes_
             (List.map sd_shape regular_shard_shape_dtype)
             (List.map sd_shape remainder_shape_dtype))
       else ret (List.map sd_shape remainder_shape_dtype))) = [] /\
    scans (trace
      (if 0 <? num_extra_shards
       then
        regular_shard_shape_dtype <-
        eval_shape (apply_fun_to_slice fn args kw in_axes_ 0 shard_size);;
        lift
          (tree_map3 (make_output_shape num_extra_shards) out_axes_
             (List.map sd_shape regular_shard_shape_dtype)
             (List.map sd_shape remainder_shape_dtype))
       else ret (List.map sd_shape remainder_shape_dtype))) = []).
  { destruct (0 <? num_extra_shards); [| split; reflexivity].
    bind_step Hshapes regular Hreg.
    rewrite !shards_app, !scans_app, trace_lift, eval_shape_trace.
    split; reflexivity. }
  destruct Hprobe as [-> ->].
  unfold shard_schedule.
  set (slice_starts := arange 0 (in_size - shard_size + 1) shard_size) in *.
  assert (Hfull :
    shards (trace
      (if (0 <? length slice_starts)%nat
       then
        r <- scan (scan_iteration fn shard_size args kw in_axes_ out_axes_)
               outputs slice_starts;;
        ret r.1
       else ret outputs)) = List.map (fun i => (i, shard_size)) slice_starts /\
    scans (trace
      (if (0 <? length slice_starts)%nat
       then
        r <- scan (scan_iteration fn shard_size args kw in_axes_ out_axes_)
               outputs slice_starts;;
        ret r.1
       else ret outputs)) = match slice_starts with
                            | [] => []
                            | _ :: _ => [slice_starts]
                            end).
  { destruct slice_starts as [| x xs] eqn:Hstarts; [split; reflexivity |].
    cbn [length Nat.ltb Nat.leb] in Hscan |- *.
    bind_step Hscan r Hr.
    unfold scan in Hr |- *.
    bind_step Hr u Hu.
    apply scan_loop_ok in Hr as [Hs1 Hs2].
    rewrite !shards_app, !scans_app, Hs1, Hs2.
    split; cbn [trace tell ret snd shards scans flat_map app];
      rewrite ?app_nil_r; reflexivity. }
  destruct Hfull as [-> ->].
  assert (Hlastshard :
    shards (trace
      (if negb (last_shard_size =? shard_size)
       then compute_shard fn args kw in_axes_ out_axes_ outputs'
              (in_size - last_shard_size) last_shard_size
       else ret outputs'))
    = (if last_shard_size =? shard_size then []
       else [(in_size - last_shard_size, last_shard_size)]) /\
    scans (trace
      (if negb (last_shard_size =? shard_size)
       then compute_shard fn args kw in_axes_ out_axes_ outputs'
              (in_size - last_shard_size) last_shard_size
       else ret outputs')) = []).
  { destruct (last_shard_size =? shard_size); [split; reflexivity |].
    cbn [negb] in H |- *. apply compute_shard_ok in H. exact H. }
  destruct Hlastshard as [-> ->].
  cbn [shards scans flat_map app].
  split; [reflexivity |].
  rewrite app_nil_r. reflexivity.
Qed.

(** ** Concrete partitions *)

(** C3: with a batch of 10 and shards of 3 the executor runs the shards
    [0,3), [3,6), [6,9) in one [hk.scan] and then the remainder shard
    [9,10); with a batch of 9 it runs [0,3), [3,6), [6,9) and no remainder
    shard.  Each part holds for every run that succeeds, on its own. *)
Theorem shard_partition_10_and_9_by_3 :
  (forall (fn : callable) (in_axes out_axes : axes_spec)
          (args : list ndarray) (kw : kwargs_t) (in_axes_ : list axis_t)
          (out : list ndarray),
      _expand_axes in_axes args = Ok in_axes_ ->
      in_size_of args in_axes_ = Ok 10 ->
      value (mapped_fn fn 3 in_axes out_axes args kw) = Ok out ->
      shards (trace (mapped_fn fn 3 in_axes out_axes args kw))
      = [(0, 3); (3, 3); (6, 3); (9, 1)] /\
      scans (trace (mapped_fn fn 3 in_axes out_axes args kw)) = [[0; 3; 6]]) /\
  (forall (fn : callable) (in_axes out_axes : axes_spec)
          (args : list ndarray) (kw : kwargs_t) (in_axes_ : list axis_t)
          (out : list ndarray),
      _expand_axes in_axes args = Ok in_axes_ ->
      in_size_of args in_axes_ = Ok 9 ->
      value (mapped_fn fn 3 in_axes out_axes args kw) = Ok out ->
      shards (trace (mapped_fn fn 3 in_axes out_axes args kw))
      = [(0, 3); (3, 3); (6, 3)] /\
      scans (trace (mapped_fn fn 3 in_axes out_axes args kw)) = [[0; 3; 6]]).
Proof.
  split; intros fn in_axes out_axes args kw in_axes_ out Hax0 Hsz0 Hok;
    apply mapped_fn_schedule in Hok
      as (ax & sz & lss & Hax & Hsz & Hlss & -> & ->);
    rewrite Hax0 in Hax; injection Hax as <-;
    rewrite Hsz0 in Hsz; injection Hsz as <-;
    injection Hlss as <-;
    split; reflexivity.
Qed.

Lemma shard_partition_10_and_9_by_3_witness :
  let in_axes := AxAll (Some 0%nat) in
  let x10 := of_list1 [10; 11; 12; 13; 14; 15; 16; 17; 18; 19] in
  let x9 := of_list1 [1; 2; 3; 4; 5; 6; 7; 8; 9] in
  shards (trace (mapped_fn identity_fn 3 in_axes in_axes [x10] []))
  = [(0, 3); (3, 3); (6, 3); (9, 1)] /\
  scans (trace (mapped_fn identity_fn 3 in_axes in_axes [x10] []))
  = [[0; 3; 6]] /\
  shards (trace (mapped_fn identity_fn 3 in_axes in_axes [x9] []))
  = [(0, 3); (3, 3); (6, 3)] /\
  scans (trace (mapped_fn identity_fn 3 in_axes in_axes [x9] []))
  = [[0; 3; 6]].
Proof.
  intros in_axes x10 x9.
  edestruct (proj1 shard_partition_10_and_9_by_3
               identity_fn in_axes in_axes [x10] []) as [Hs10 Hc10];
    [reflexivity | reflexivity | reflexivity |].
  edestruct (proj2 shard_partition_10_and_9_by_3
               identity_fn in_axes in_axes [x9] []) as [Hs9 Hc9];
    [reflexivity | reflexivity | reflexivity |].
  repeat split; assumption.
Defined.

(** ** Batches no larger than a shard *)

Lemma arange_small (batch_size shard_size : Z) :
  1 <= batch_size < shard_size ->
  arange 0 (batch_size - shard_size + 1) shard_size = [].
Proof.
  intros H. unfold arange, ceil_div.
  replace (- (batch_size - shard_size + 1 - 0))
    with (shard_size - batch_size - 1) by lia.
  rewrite Z.div_small by lia. reflexivity.
Qed.

Lemma arange_one_shard (shard_size : Z) :
  1 <= shard_size ->
  arange 0 (shard_size - shard_size + 1) shard_size = [0].
Proof.
  intros H. unfold arange, ceil_div.
  replace (- (shard_size - shard_size + 1 - 0)) with (- (1)) by lia.
  assert (Hd : - (1) / shard_size = - (1)).
  { symmetry. apply (Z.div_unique _ _ _ (shard_size - 1)); lia. }
  rewrite Hd. reflexivity.
Qed.

(** C4, as the code has it: a batch of [1 <= batch_size <= shard_size] has no
    extra shard and is processed as one shard [0, batch_size).  When
    [batch_size < shard_size] that shard is the remainder shard and
    [hk.scan] is skipped; when [batch_size = shard_size] it is a full shard,
    run by [hk.scan] over the single start [0].  [hk.scan] is never entered
    with an empty range. *)
Theorem small_batch_single_shard
    (fn : callable) (shard_size : Z) (in_axes out_axes : axes_spec)
    (args : list ndarray) (kw : kwargs_t) (in_axes_ : list axis_t)
    (batch_size : Z) (out : list ndarray) :
  _expand_axes in_axes args = Ok in_axes_ ->
  in_size_of args in_axes_ = Ok batch_size ->
  1 <= batch_size <= shard_size ->
  value (mapped_fn fn shard_size in_axes out_axes args kw) = Ok out ->
  floordiv (batch_size - 1) shard_size = Ok 0 /\
  shards (trace (mapped_fn fn shard_size in_axes out_axes args kw))
  = [(0, batch_size)] /\
  (if batch_size <? shard_size
   then scan_skipped (trace (mapped_fn fn shard_size in_axes out_axes args kw))
   else scans (trace (mapped_fn fn shard_size in_axes out_axes args kw))
        = [[0]]) /\
  Forall (fun xs => xs <> [])
         (scans (trace (mapped_fn fn shard_size in_axes out_axes args kw))).
Proof.
  intros Hax Hsz Hb Hok. unfold scan_skipped.
  apply mapped_fn_schedule in Hok
    as (ax & sz & lss & Hax' & Hsz' & Hlss & -> & ->).
  rewrite Hax in Hax'. injection Hax' as <-.
  rewrite Hsz in Hsz'. injection Hsz' as <-.
  unfold last_shard_size_of, pymod in Hlss.
  unfold floordiv, shard_schedule.
  replace (shard_size =? 0) with false in * by lia.
  cbn [rbind] in Hlss. injection Hlss as <-.
  rewrite Z.div_small by lia.
  destruct (Z.ltb_spec batch_size shard_size) as [Hlt | Hge].
  - rewrite arange_small by lia.
    rewrite Z.mod_small by lia.
    replace (batch_size =? 0) with false by lia.
    replace (batch_size =? shard_size) with false by lia.
    replace (batch_size - batch_size) with 0 by lia.
    repeat split; constructor.
  - assert (batch_size = shard_size) as -> by lia.
    rewrite arange_one_shard by lia.
    rewrite Z.mod_same by lia. cbn [Z.eqb].
    rewrite Z.eqb_refl.
    repeat split. constructor; [discriminate | constructor].
Qed.

Lemma small_batch_single_shard_witness :
  let in_axes := AxAll (Some 0%nat) in
  let m := mapped_fn identity_fn 3 in_axes in_axes [of_list1 [7; 8]] [] in
  floordiv (2 - 1) 3 = Ok 0 /\
  shards (trace m) = [(0, 2)] /\
  (if 2 <? 3 then scan_skipped (trace m) else scans (trace m) = [[0]]) /\
  Forall (fun xs => xs <> []) (scans (trace m)).
Proof.
  intros in_axes m.
  eapply (small_batch_single_shard identity_fn 3 in_axes in_axes
                                   [of_list1 [7; 8]] []);
    [reflexivity | reflexivity | lia | reflexivity].
Defined.

(** Against C4 as stated: a batch of exactly [shard_size] elements does enter
    [hk.scan]. *)
Lemma scan_not_skipped_at_full_batch :
  let in_axes := AxAll (Some 0%nat) in
  let x := of_list1 [7; 8; 9] in
  let m := mapped_fn identity_fn 3 in_axes in_axes [x] [] in
  in_size_of [x] [Axis 0] = Ok 3 /\ 3 <= 3 /\
  is_ok (value m) = true /\
  scans (trace m) = [[0]] /\
  ~ scan_skipped (trace m).
Proof.
  cbv zeta. repeat split; try reflexivity; try lia.
  unfold scan_skipped. discriminate.
Qed.

(** ** A call with no batched leaf *)

(** C6 fails on the code: when every leaf is broadcast, [_maybe_get_size]
    gives -1 for each of them, [mapped_fn] takes -1 as the batch size and goes
    on.  With [shard_size = 1] no shard is then executed and the zero-filled
    buffers are returned. *)
Theorem all_broadcast_call_returns_zeros :
  let x := of_list1 [1; 2] in
  let m := mapped_fn identity_fn 1 (AxAll None) (AxAll (Some 0%nat)) [x] [] in
  _expand_axes (AxAll None) [x] = Ok [PROXY] /\
  in_size_of [x] [PROXY] = Ok (-1) /\
  rmap (List.map to_list1) (value m) = Ok [[0; 0]] /\
  shards (trace m) = [] /\
  rmap (List.map to_list1) (value (identity_fn [x] [])) = Ok [[1; 2]].
Proof. cbv zeta. repeat split; reflexivity. Qed.

(** ** The default output axis of [inference_subbatch] *)

(** C10: outside initialisation mode, [inference_subbatch] with
    [output_subbatch_dim=None] delegates to [sharded_apply] with
    [input_subbatch_dim] as the output axis, and so does what it does when
    [output_subbatch_dim] is given as [input_subbatch_dim]. *)
Theorem output_subbatch_dim_defaults_to_input
    (module : callable) (subbatch_size : Z) (a : ndarray)
    (batched_args nonbatched_args : list ndarray) (input_subbatch_dim : nat) :
  inference_subbatch module subbatch_size (a :: batched_args) nonbatched_args
                     input_subbatch_dim None false
  = mapped_fn (run_module module nonbatched_args) subbatch_size
              (AxAll (Some input_subbatch_dim))
              (AxAll (Some input_subbatch_dim))
              (a :: batched_args) [] /\
  inference_subbatch module subbatch_size (a :: batched_args) nonbatched_args
                     input_subbatch_dim None false
  = inference_subbatch module subbatch_size (a :: batched_args) nonbatched_args
                       input_subbatch_dim (Some input_subbatch_dim) false.
Proof.
  split; [| reflexivity].
  unfold inference_subbatch, sharded_apply.
  cbn [length Nat.ltb Nat.leb negb bind ret].
  destruct (mapped_fn _ _ _ _ _ _) as [r l]. reflexivity.
Qed.

(** ** Broadcast leaves *)

Lemma lookup_map {A B : Type} (f : A -> B) (l : list A) (j : nat) :
  List.map f l !! j = f <$> (l !! j).
Proof.
  revert j. induction l as [| x l IH]; intros [| j]; cbn; auto.
Qed.

Lemma sequence_lookup {A : Type} (l : list (result A)) :
  forall (zs : list A) (j : nat) (r : result A),
    sequence l = Ok zs -> l !! j = Some r ->
    exists z, r = Ok z /\ zs !! j = Some z.
Proof.
  induction l as [| r0 l IH]; intros zs j r Hs Hj.
  - destruct j; discriminate.
  - cbn [sequence] in Hs.
    destruct r0 as [z0 | e]; [| discriminate]. cbn [rbind] in Hs.
    destruct (sequence l) as [zs' | e]; [| discriminate]. cbn [rbind] in Hs.
    injection Hs as <-.
    destruct j as [| j].
    + injection Hj as <-. exists z0. split; reflexivity.
    + apply (IH zs' j r eq_refl Hj).
Qed.

Lemma tree_map2_lookup {A B C : Type} (f : A -> B -> result C)
    (xs : list A) (ys : list B) (zs : list C) (j : nat) (x : A) (y : B) :
  tree_map2 f xs ys = Ok zs -> xs !! j = Some x -> ys !! j = Some y ->
  exists z, f x y = Ok z /\ zs !! j = Some z.
Proof.
  unfold tree_map2. destruct (Nat.eqb _ _); [| discriminate].
  intros Hs Hx Hy.
  apply (sequence_lookup _ zs j (f x y)) in Hs.
  - destruct Hs as (z & Hz & Hj). eauto.
  - rewrite lookup_zip_with, Hx. cbn. rewrite Hy. reflexivity.
Qed.


Section BroadcastLeaf.

Variable j : nat.
Variable a : ndarray.



Variable fn : callable.
Variable args : list ndarray.
Variable kw : kwargs_t.
Variable in_axes_ : list axis_t.
Hypothesis Haxis : in_axes_ !! j = Some PROXY.
Hypothesis Harg : args !! j = Some a.





End BroadcastLeaf.



(** ** Sharded application of a batch-wise function *)

Lemma clamp_start_in_range (i d n : Z) :
  0 <= i -> i + n <= d -> clamp_start i d n = i.
Proof.
  intros Hi Hn. unfold clamp_start.
  replace (i <? 0) with false by lia. lia.
Qed.

Lemma in_boundsb_spec (idx shp : list Z) :
  in_boundsb idx shp = true <-> in_bounds idx shp.
Proof.
  unfold in_bounds. revert shp.
  induction idx as [| i idx IH]; intros [| d shp]; cbn.
  - split; [constructor | reflexivity].
  - split; [discriminate | intros H; inversion H].
  - split; [discriminate | intros H; inversion H].
  - rewrite !andb_true_iff, IH. split.
    + intros [[H1 H2] H3]. constructor; [lia | exact H3].
    + intros H. inversion H; subst. repeat split; [lia | lia | assumption].
Qed.

(** Moving an in-bounds index by [- m] along [axis] keeps it within the
    shape of an [n]-row update exactly when its coordinate lies in
    [m, m + n). *)
Lemma in_boundsb_shift (axis : nat) (m n : Z) :
  forall (idx shp : list Z) (v : Z),
    in_bounds idx shp -> idx !! axis = Some v ->
    in_boundsb (alter (fun c => c - m) axis idx) (<[axis := n]> shp)
    = (0 <=? v - m) && (v - m <? n).
Proof.
  unfold in_bounds.
  induction axis as [| axis IH]; intros idx shp v Hb Hv.
  - destruct Hb as [| i d idx shp Hid Hb]; [discriminate |].
    injection Hv as ->. cbn.
    apply in_boundsb_spec in Hb. rewrite Hb. apply andb_true_r.
  - destruct Hb as [| i d idx shp Hid Hb]; [discriminate |].
    cbn in Hv |- *.
    replace (0 <=? i) with true by lia. replace (i <? d) with true by lia.
    cbn [andb]. apply IH; assumption.
Qed.

Lemma fits_insert (axis : nat) (n d : Z) :
  forall shp : list Z,
    shp !! axis = Some d -> n <= d -> fits (<[axis := n]> shp) shp = true.
Proof.
  assert (Hrefl : forall shp : list Z, fits shp shp = true).
  { induction shp as [| c shp IH]; cbn; [reflexivity |].
    rewrite IH. replace (c <=? c) with true by lia. reflexivity. }
  induction axis as [| axis IH]; intros [| c shp] Hd Hn; try discriminate.
  - injection Hd as ->. cbn. rewrite Hrefl.
    replace (n <=? d) with true by lia. reflexivity.
  - cbn in Hd |- *.
    replace (c <=? c) with true by lia. cbn [andb]. apply IH; assumption.
Qed.

Lemma dtype_eqb_refl (d : dtype_t) : dtype_eqb d d = true.
Proof. destruct d; reflexivity. Qed.

Lemma in_bounds_lookup (idx shp : list Z) (axis : nat) (d : Z) :
  in_bounds idx shp -> shp !! axis = Some d ->
  exists v, idx !! axis = Some v /\ 0 <= v < d.
Proof.
  intros Hb Hd.
  destruct (Forall2_lookup_r _ _ _ _ _ Hb Hd) as (v & Hv & Hvd). eauto.
Qed.

Lemma tree_map2_singleton {A B C : Type} (f : A -> B -> result C) x y :
  tree_map2 f [x] [y] = rbind (f x y) (fun z => Ok [z]).
Proof. reflexivity. Qed.

Lemma tree_map3_singleton {A B C D : Type} (f : A -> B -> C -> result D)
    x y z :
  tree_map3 f [x] [y] [z] = rbind (f x y z) (fun u => Ok [u]).
Proof. reflexivity. Qed.

(** The full shards start at the multiples of [shard_size], and there are
    [batch_size / shard_size] of them. *)
Lemma arange_full_shards (batch_size shard_size : Z) :
  1 <= batch_size -> 1 <= shard_size ->
  arange 0 (batch_size - shard_size + 1) shard_size
  = List.map (fun k => Z.of_nat k * shard_size)
             (seq 0 (Z.to_nat (batch_size / shard_size))).
Proof.
  intros Hb Hs. unfold arange, ceil_div.
  pose proof (Z.div_mod batch_size shard_size ltac:(lia)) as Hdm.
  pose proof (Z.mod_pos_bound batch_size shard_size ltac:(lia)) as Hmb.
  assert (Hd : (- (batch_size - shard_size + 1 - 0)) / shard_size
               = - (batch_size / shard_size)).
  { symmetry.
    apply (Z.div_unique _ _ _ (shard_size - batch_size mod shard_size - 1));
      lia. }
  rewrite Hd, Z.opp_involutive.
  apply map_ext. intros k. lia.
Qed.

Lemma plan_facts (batch_size shard_size : Z) :
  1 <= batch_size -> 1 <= shard_size ->
  exists num_extra_shards last_shard_size,
    floordiv (batch_size - 1) shard_size = Ok num_extra_shards /\
    last_shard_size_of shard_size batch_size = Ok last_shard_size /\
    0 < last_shard_size <= shard_size /\
    last_shard_size <= batch_size /\
    num_extra_shards * shard_size + last_shard_size = batch_size /\
    (0 <? num_extra_shards) = (shard_size <? batch_size) /\
    Z.of_nat (Z.to_nat (batch_size / shard_size)) * shard_size
    = (if last_shard_size =? shard_size then batch_size
       else batch_size - last_shard_size).
Proof.
  intros Hb Hs.
  unfold floordiv, last_shard_size_of, pymod.
  replace (shard_size =? 0) with false by lia. cbn [rbind].
  pose proof (Z.div_mod batch_size shard_size ltac:(lia)) as Hdm.
  pose proof (Z.mod_pos_bound batch_size shard_size ltac:(lia)) as Hmb.
  assert (Hq : 0 <= batch_size / shard_size) by (apply Z.div_pos; lia).
  rewrite Z2Nat.id by exact Hq.
  set (q := batch_size / shard_size) in *.
  set (r := batch_size mod shard_size) in *.
  do 2 eexists. split; [reflexivity |]. split; [reflexivity |].
  destruct (Z.eqb_spec r 0) as [Hr | Hr].
  - assert (Hn : (batch_size - 1) / shard_size = q - 1).
    { symmetry. apply (Z.div_unique _ _ _ (shard_size - 1)); lia. }
    assert (Hq1 : 1 <= q) by nia.
    rewrite Hn, Z.eqb_refl.
    repeat split; try nia;
      destruct (Z.ltb_spec 0 (q - 1)), (Z.ltb_spec shard_size batch_size);
      try reflexivity; nia.
  - assert (Hn : (batch_size - 1) / shard_size = q).
    { symmetry. apply (Z.div_unique _ _ _ (r - 1)); lia. }
    rewrite Hn. replace (r =? shard_size) with false by lia.
    repeat split; try nia;
      destruct (Z.ltb_spec 0 q), (Z.ltb_spec shard_size batch_size);
      try reflexivity; nia.
Qed.

Lemma expand_axes_single {V : Type} (axis : nat) (v : V) :
  _expand_axes (AxAll (Some axis)) [v] = Ok [Axis axis].
Proof. reflexivity. Qed.

Lemma filled_all (out_axis : nat) (y buf : ndarray) (batch_size : Z) :
  shape y !! out_axis = Some batch_size ->
  filled_upto out_axis y batch_size buf -> arr_eq buf y.
Proof.
  intros Hy (Hdt & Hsh & Hfill). split; [exact Hdt |]. split; [exact Hsh |].
  intros idx Hb. rewrite Hsh in Hb.
  destruct (in_bounds_lookup idx (shape y) out_axis batch_size Hb Hy)
    as (v & Hv & Hvb).
  apply (Hfill idx v Hb Hv). lia.
Qed.

Lemma insert_rebuild (shp : list Z) (axis : nat) (c d e : Z) :
  shp !! axis = Some d ->
  take axis (<[axis := c]> shp) ++ [e] ++ drop (S axis) (<[axis := c]> shp)
  = <[axis := e]> shp.
Proof.
  intros Hd.
  assert (Hlen : (axis < length shp)%nat) by (apply lookup_lt_is_Some; eauto).
  rewrite take_insert_ge, drop_insert_lt by lia.
  symmetry. apply insert_take_drop. exact Hlen.
Qed.

Section ShardedEqualsDirect.

Variable fn : callable.
Variable kw : kwargs_t.
Variable x y : ndarray.
Variable in_axis out_axis : nat.
Variable batch_size shard_size : Z.
Hypothesis Hbatch : 1 <= batch_size.
Hypothesis Hshard : 1 <= shard_size.
Hypothesis Hx : shape x !! in_axis = Some batch_size.
Hypothesis Hy : shape y !! out_axis = Some batch_size.
Hypothesis Hcomm : slices_commute fn kw x in_axis y out_axis batch_size.

(** What [fun] returns on the slice [i, i + n). *)
Lemma slice_applied (i n : Z) :
  0 <= i -> 0 < n -> i + n <= batch_size ->
  exists y_i,
    value (apply_fun_to_slice fn [x] kw [Axis in_axis] i n) = Ok [y_i] /\
    dtype y_i = dtype y /\
    shape y_i = <[out_axis := n]> (shape y) /\
    forall idx, in_bounds idx (shape y_i) ->
                item y_i idx = item y (alter (Z.add i) out_axis idx).
Proof.
  intros Hi Hn Hin.
  destruct (Hcomm i n Hi Hn Hin)
    as (x_slice & y_i & y_slice & Hxs & Hfn & Hys & Heq).
  exists y_i.
  unfold dynamic_slice_in_dim in Hys. rewrite Hy in Hys.
  replace ((0 <=? n) && (n <=? batch_size)) with true in Hys by lia.
  rewrite clamp_start_in_range in Hys by lia.
  injection Hys as <-.
  destruct Heq as (Hdt & Hsh & Hit). cbn in Hdt, Hsh, Hit.
  split; [| auto].
  unfold apply_fun_to_slice. rewrite value_bind.
  cbn [value lift fst]. rewrite tree_map2_singleton. cbn [_maybe_slice].
  rewrite Hxs. cbn [rbind].
  destruct (fn [x_slice] kw) as [r l]. exact Hfn.
Qed.

(** One shard written into the buffer extends the filled part by the
    shard. *)
Lemma shard_written (m n : Z) (buf : ndarray) :
  0 <= m -> 0 < n -> m + n <= batch_size ->
  filled_upto out_axis y m buf ->
  exists buf',
    value (compute_shard fn [x] kw [Axis in_axis] [Axis out_axis] [buf] m n)
    = Ok [buf'] /\
    filled_upto out_axis y (m + n) buf'.
Proof.
  intros Hm Hn Hmn (Hdt & Hsh & Hfill).
  destruct (slice_applied m n Hm Hn Hmn)
    as (y_i & Hval & Hydt & Hysh & Hyit).
  assert (Hlen : (out_axis < length (shape y))%nat).
  { apply lookup_lt_is_Some. eauto. }
  unfold compute_shard. rewrite value_bind, Hval.
  cbn [value lift fst]. rewrite tree_map3_singleton.
  cbn [dynamic_update_slice_in_dim].
  unfold lax_dynamic_update_slice_in_dim.
  rewrite Hsh, Hy, Hysh, list_lookup_insert_eq by exact Hlen.
  rewrite Hdt, Hydt, dtype_eqb_refl.
  rewrite (fits_insert out_axis n batch_size) by (auto; lia).
  cbn [andb rbind]. rewrite clamp_start_in_range by lia.
  eexists. split; [reflexivity |].
  split; [reflexivity |]. split; [reflexivity |]. cbn [item].
  intros idx v Hb Hv Hlt.
  rewrite (in_boundsb_shift out_axis m n idx (shape y) v Hb Hv).
  destruct (Z.leb_spec 0 (v - m)) as [Hge | Hbelow]; cbn [andb].
  - replace (v - m <? n) with true by lia.
    rewrite Hyit.
    + f_equal. rewrite list_alter_alter_eq.
      apply list_alter_id. intros c. cbn. lia.
    + rewrite Hysh. apply in_boundsb_spec.
      rewrite (in_boundsb_shift out_axis m n idx (shape y) v Hb Hv). lia.
  - apply (Hfill idx v); auto. lia.
Qed.

(** The scan over [cnt] full shards, started after [k0] of them. *)
Lemma full_shards_written (cnt : nat) :
  forall (k0 : nat) (buf : ndarray),
    Z.of_nat (k0 + cnt) * shard_size <= batch_size ->
    filled_upto out_axis y (Z.of_nat k0 * shard_size) buf ->
    exists buf' units,
      value (scan_loop
               (scan_iteration fn shard_size [x] kw
                               [Axis in_axis] [Axis out_axis])
               [buf]
               (List.map (fun k => Z.of_nat k * shard_size) (seq k0 cnt)))
      = Ok ([buf'], units) /\
      filled_upto out_axis y (Z.of_nat (k0 + cnt) * shard_size) buf'.
Proof.
  induction cnt as [| cnt IH]; intros k0 buf Hle Hfill.
  - exists buf, []. rewrite Nat.add_0_r. split; [reflexivity | exact Hfill].
  - cbn [seq List.map scan_loop].
    destruct (shard_written (Z.of_nat k0 * shard_size) shard_size buf)
      as (buf1 & Hv1 & Hf1); [lia | lia | nia | exact Hfill |].
    destruct (IH (S k0) buf1) as (buf' & units & Hv & Hf).
    + replace (S k0 + cnt)%nat with (k0 + S cnt)%nat by lia. exact Hle.
    + replace (Z.of_nat (S k0) * shard_size)
        with (Z.of_nat k0 * shard_size + shard_size) by lia.
      exact Hf1.
    + exists buf', (tt :: units).
      rewrite value_bind. unfold scan_iteration at 1.
      rewrite value_bind, Hv1. cbn [value ret fst].
      rewrite value_bind, Hv. cbn [value ret fst snd].
      split; [reflexivity |].
      replace (k0 + S cnt)%nat with (S k0 + cnt)%nat by lia. exact Hf.
Qed.

Lemma in_size_single : in_size_of [x] [Axis in_axis] = Ok batch_size.
Proof.
  unfold in_size_of. rewrite tree_map2_singleton. cbn [_maybe_get_size].
  rewrite Hx. reflexivity.
Qed.

Lemma mapped_fn_batchwise :
  exists out,
    value (mapped_fn fn shard_size (AxAll (Some in_axis))
                     (AxAll (Some out_axis)) [x] kw) = Ok [out] /\
    arr_eq out y.
Proof.
  destruct (plan_facts batch_size shard_size Hbatch Hshard)
    as (num & last & Hnum & Hlast & Hl & Hlb & Hsum & Hpos & Hcover).
  destruct (slice_applied 0 last) as (y0 & Hv0 & Hdt0 & Hsh0 & _);
    [lia | lia | lia |].
  unfold mapped_fn.
  rewrite value_bind. cbn [value lift fst]. rewrite expand_axes_single.
  rewrite value_bind. cbn [value lift fst]. rewrite in_size_single.
  rewrite value_bind. cbn [value lift fst]. rewrite Hnum.
  rewrite value_bind. cbn [value lift fst]. rewrite Hlast.
  rewrite value_bind, eval_shape_value, Hv0. cbn [rmap rbind List.map].
  rewrite value_bind. cbn [value lift fst]. rewrite expand_axes_single.
  cbn [shape_dtype_of sd_shape sd_dtype].
  (* the shapes of the buffers *)
  rewrite value_bind.
  match goal with
  | |- context [value (if 0 <? num then ?A else ?B)] =>
      assert (Hshapes : value (if 0 <? num then A else B) = Ok [shape y])
  end.
  { destruct (0 <? num) eqn:Hnum0.
    - destruct (slice_applied 0 shard_size) as (ys & Hvs & _ & Hshs & _);
        [lia | lia | lia |].
      rewrite value_bind, eval_shape_value, Hvs.
      cbn [rmap rbind List.map value lift fst shape_dtype_of sd_shape].
      rewrite tree_map3_singleton. cbn [make_output_shape].
      assert (Hlen : (out_axis < length (shape y))%nat).
      { apply lookup_lt_is_Some. eauto. }
      rewrite Hshs, Hsh0, !list_lookup_insert_eq by exact Hlen.
      cbn [rbind].
      rewrite (insert_rebuild _ _ _ _ _ Hy).
      rewrite list_insert_id; [reflexivity |].
      rewrite Hy. f_equal. lia.
    - cbn [value ret fst]. rewrite Hsh0.
      rewrite list_insert_id; [reflexivity |].
      rewrite Hy. f_equal. nia. }
  rewrite Hshapes.
  rewrite value_bind. cbn [value lift fst].
  rewrite tree_map2_singleton. cbn [allocate_buffer rbind].
  rewrite Hdt0.
  (* the full shards *)
  assert (Hzero : filled_upto out_axis y (Z.of_nat 0 * shard_size)
                              (zeros (shape y) (dtype y))).
  { split; [reflexivity |]. split; [reflexivity |].
    intros idx v Hb Hv Hlt.
    destruct (in_bounds_lookup idx (shape y) out_axis batch_size Hb Hy)
      as (v' & Hv' & Hvb).
    rewrite Hv in Hv'. injection Hv' as <-. lia. }
  destruct (full_shards_written (Z.to_nat (batch_size / shard_size)) 0%nat
                                (zeros (shape y) (dtype y)))
    as (buf & units & Hscan & Hfull); [| exact Hzero |].
  { cbn [Nat.add]. rewrite Hcover. destruct (last =? shard_size); lia. }
  cbn [Nat.add] in Hfull. rewrite Hcover in Hfull.
  rewrite value_bind, arange_full_shards by assumption.
  match goal with
  | |- context [value (if (0 <? ?L)%nat then ?A else ?B)] =>
      assert (Hfulls : value (if (0 <? L)%nat then A else B) = Ok [buf])
  end.
  { destruct (Z.to_nat (batch_size / shard_size)) as [| cnt].
    - cbn in Hscan |- *. injection Hscan as <-. reflexivity.
    - rewrite List.length_map, List.length_seq. cbn [Nat.ltb Nat.leb].
      rewrite value_bind. unfold scan. rewrite value_bind.
      cbn [value tell fst]. rewrite Hscan. reflexivity. }
  rewrite Hfulls.
  (* the remainder shard *)
  destruct (last =? shard_size) eqn:Hrem; cbn [negb].
  - exists buf. split; [reflexivity |].
    apply (filled_all out_axis y buf batch_size Hy Hfull).
  - destruct (shard_written (batch_size - last) last buf)
      as (buf' & Hv & Hf); [lia | lia | lia | exact Hfull |].
    exists buf'. split; [exact Hv |].
    apply (filled_all out_axis y buf' batch_size Hy).
    replace (batch_size - last + last) with batch_size in Hf by lia.
    exact Hf.
Qed.

End ShardedEqualsDirect.

(** Adding a constant to every element commutes with slicing. *)
Lemma add_const_slices_commute (c : Z) (kw : kwargs_t) (x : ndarray)
    (axis : nat) (batch_size : Z) :
  shape x !! axis = Some batch_size ->
  slices_commute (add_const_fn c) kw x axis (add_const c x) axis batch_size.
Proof.
  intros Hx i n Hi Hn Hin.
  unfold dynamic_slice_in_dim. cbn [add_const shape].
  rewrite Hx. replace ((0 <=? n) && (n <=? batch_size)) with true by lia.
  do 3 eexists. split; [reflexivity |]. split; [reflexivity |].
  split; [reflexivity |].
  split; [reflexivity |]. split; reflexivity.
Qed.

(** C1, as the code has it: when [fn] commutes with slicing along the mapped
    axis ([slices_commute]: it acts on the elements of the batch
    independently, as a vectorised function does) and keeps the batch size,
    then for every batch size [b >= 1] and every [shard_size >= 1], dividing
    [b] or not, the function returned by [sharded_apply] gives on [x] an
    array equal element for element to [fn(x)]. *)
Theorem sharded_apply_equals_direct
    (fn : callable) (kw : kwargs_t) (x y : ndarray) (in_axis out_axis : nat)
    (batch_size shard_size : Z) :
  1 <= batch_size -> 1 <= shard_size ->
  shape x !! in_axis = Some batch_size ->
  value (fn [x] kw) = Ok [y] ->
  shape y !! out_axis = Some batch_size ->
  slices_commute fn kw x in_axis y out_axis batch_size ->
  exists mapped out,
    value (sharded_apply fn (Some shard_size) (AxAll (Some in_axis))
                         (AxAll (Some out_axis)) false) = Ok mapped /\
    value (mapped [x] kw) = Ok [out] /\
    arr_eq out y.
Proof.
  intros Hb Hs Hx _ Hy Hcomm.
  destruct (mapped_fn_batchwise fn kw x y in_axis out_axis
                                batch_size shard_size Hb Hs Hx Hy Hcomm)
    as (out & Hval & Heq).
  eexists. exists out. split; [reflexivity |]. split; assumption.
Qed.

Lemma sharded_apply_equals_direct_witness :
  let x := of_list1 [10; 20; 30] in
  exists mapped out,
    value (sharded_apply (add_const_fn 1) (Some 2) (AxAll (Some 0%nat))
                         (AxAll (Some 0%nat)) false) = Ok mapped /\
    value (mapped [x] []) = Ok [out] /\
    arr_eq out (add_const 1 x).
Proof.
  intros x.
  apply (sharded_apply_equals_direct
           (add_const_fn 1) [] x (add_const 1 x) 0%nat 0%nat 3 2);
    [lia | lia | reflexivity | reflexivity | reflexivity |].
  apply add_const_slices_commute. reflexivity.
Defined.

(** Against C1 as stated: reversing the batch is a pure function, and on
    [[10; 20; 30]] with shards of 2 the sharded application gives
    [[20; 10; 30]] where the direct one gives [[30; 20; 10]]. *)
Lemma sharded_apply_differs_on_flip :
  let x := of_list1 [10; 20; 30] in
  let y := flip1 x in
  shape x !! 0%nat = Some 3 /\ 1 <= 3 /\ 1 <= 2 /\
  value (flip_fn [x] []) = Ok [y] /\
  exists mapped out,
    value (sharded_apply flip_fn (Some 2) (AxAll (Some 0%nat))
                         (AxAll (Some 0%nat)) false) = Ok mapped /\
    value (mapped [x] []) = Ok [out] /\
    to_list1 out = [20; 10; 30] /\
    to_list1 y = [30; 20; 10] /\
    ~ arr_eq out y.
Proof.
  cbv zeta. split; [reflexivity |]. split; [lia |]. split; [lia |].
  split; [reflexivity |].
  do 2 eexists. split; [reflexivity |]. split; [reflexivity |].
  split; [reflexivity |]. split; [reflexivity |].
  intros (_ & _ & Hitem).
  specialize (Hitem [0]).
  assert (Hb : in_bounds [0] [3]) by (repeat constructor; lia).
  specialize (Hitem Hb). vm_compute in Hitem. discriminate.
Qed.

(** * Further properties of the shard executor *)

(** ** The schedule of a run *)

Lemma last_shard_size_value (batch_size shard_size : Z) :
  1 <= shard_size ->
  last_shard_size_of shard_size batch_size
  = Ok (if batch_size mod shard_size =? 0 then shard_size
        else batch_size mod shard_size).
Proof.
  intros Hs. unfold last_shard_size_of, pymod.
  replace (shard_size =? 0) with false by lia. reflexivity.
Qed.

Lemma ceil_div_floor (batch_size shard_size : Z) :
  1 <= shard_size ->
  ceil_div batch_size shard_size
  = batch_size / shard_size
    + (if batch_size mod shard_size =? 0 then 0 else 1).
Proof.
  intros Hs. unfold ceil_div.
  pose proof (Z.div_mod batch_size shard_size ltac:(lia)) as Hdm.
  pose proof (Z.mod_pos_bound batch_size shard_size ltac:(lia)) as Hmb.
  destruct (Z.eqb_spec (batch_size mod shard_size) 0) as [Hr | Hr].
  - assert (Hd : - batch_size / shard_size = - (batch_size / shard_size)).
    { symmetry. apply (Z.div_unique _ _ _ 0); lia. }
    rewrite Hd. lia.
  - assert (Hd : - batch_size / shard_size = - (batch_size / shard_size) - 1).
    { symmetry.
      apply (Z.div_unique _ _ _ (shard_size - batch_size mod shard_size));
        lia. }
    rewrite Hd. lia.
Qed.

(** The schedule in closed form. *)
Lemma shard_schedule_closed_form (batch_size shard_size : Z) :
  1 <= batch_size -> 1 <= shard_size ->
  shard_schedule batch_size shard_size
    (if batch_size mod shard_size =? 0 then shard_size
     else batch_size mod shard_size)
  = List.map (nth_shard batch_size shard_size)
             (seq 0 (Z.to_nat (ceil_div batch_size shard_size))).
Proof.
  intros Hb Hs. unfold shard_schedule.
  rewrite arange_full_shards, List.map_map, ceil_div_floor by assumption.
  pose proof (Z.div_mod batch_size shard_size ltac:(lia)) as Hdm.
  pose proof (Z.mod_pos_bound batch_size shard_size ltac:(lia)) as Hmb.
  assert (Hq : 0 <= batch_size / shard_size) by (apply Z.div_pos; lia).
  set (q := batch_size / shard_size) in *.
  set (r := batch_size mod shard_size) in *.
  assert (Hfull :
    List.map (fun k => (Z.of_nat k * shard_size, shard_size))
             (seq 0 (Z.to_nat q))
    = List.map (nth_shard batch_size shard_size) (seq 0 (Z.to_nat q))).
  { apply map_ext_in. intros k Hk. apply in_seq in Hk.
    unfold nth_shard. f_equal. nia. }
  rewrite Hfull.
  destruct (Z.eqb_spec r 0) as [Hr | Hr].
  - rewrite Z.eqb_refl, Z.add_0_r. apply app_nil_r.
  - replace (r =? shard_size) with false by lia.
    replace (Z.to_nat (q + 1)) with (Z.to_nat q + 1)%nat by lia.
    rewrite seq_app, List.map_app. f_equal.
    cbn [seq List.map Nat.add]. unfold nth_shard.
    rewrite Z2Nat.id by exact Hq. f_equal. f_equal; nia.
Qed.

Lemma tiles_nth_shards (batch_size shard_size : Z) (cnt : nat) :
  1 <= shard_size ->
  forall k0 : nat,
    Z.of_nat k0 * shard_size <= batch_size ->
    Z.of_nat (k0 + cnt) * shard_size < batch_size + shard_size ->
    tiles (Z.of_nat k0 * shard_size)
          (List.map (nth_shard batch_size shard_size) (seq k0 cnt))
          (Z.min batch_size (Z.of_nat (k0 + cnt) * shard_size)).
Proof.
  intros Hs. induction cnt as [| cnt IH]; intros k0 Hle Hlt.
  - cbn. rewrite Nat.add_0_r in *. lia.
  - cbn [seq List.map tiles]. unfold nth_shard at 1.
    split; [reflexivity |]. split; [nia |].
    destruct (Z_le_gt_dec (Z.of_nat (S k0) * shard_size) batch_size)
      as [Hnext | Hnext].
    + replace (Z.of_nat k0 * shard_size
               + Z.min shard_size (batch_size - Z.of_nat k0 * shard_size))
        with (Z.of_nat (S k0) * shard_size) by nia.
      replace (k0 + S cnt)%nat with (S k0 + cnt)%nat in * by lia.
      apply IH; assumption.
    + assert (cnt = 0%nat) as -> by nia.
      cbn [seq List.map tiles]. nia.
Qed.

(** X1: in a successful run over a batch of [batch_size >= 1] elements with
    [shard_size >= 1], [fun] is executed on [ceil(batch_size / shard_size)]
    shards, in this order: the [k]-th starts at [k * shard_size] and has
    [min(shard_size, batch_size - k * shard_size)] elements. *)
Theorem shards_in_closed_form
    (fn : callable) (shard_size : Z) (in_axes out_axes : axes_spec)
    (args : list ndarray) (kw : kwargs_t) (in_axes_ : list axis_t)
    (batch_size : Z) (out : list ndarray) :
  _expand_axes in_axes args = Ok in_axes_ ->
  in_size_of args in_axes_ = Ok batch_size ->
  1 <= batch_size -> 1 <= shard_size ->
  value (mapped_fn fn shard_size in_axes out_axes args kw) = Ok out ->
  shards (trace (mapped_fn fn shard_size in_axes out_axes args kw))
  = List.map (nth_shard batch_size shard_size)
             (seq 0 (Z.to_nat (ceil_div batch_size shard_size))).
Proof.
  intros Hax Hsz Hb Hs Hok.
  apply mapped_fn_schedule in Hok
    as (ax & sz & lss & Hax' & Hsz' & Hlss & -> & _).
  rewrite Hax in Hax'. injection Hax' as <-.
  rewrite Hsz in Hsz'. injection Hsz' as <-.
  rewrite last_shard_size_value in Hlss by exact Hs. injection Hlss as <-.
  apply shard_schedule_closed_form; assumption.
Qed.

Lemma shards_in_closed_form_witness :
  let in_axes := AxAll (Some 0%nat) in
  let x := of_list1 [1; 2; 3; 4; 5; 6; 7] in
  shards (trace (mapped_fn identity_fn 2 in_axes in_axes [x] []))
  = List.map (nth_shard 7 2) (seq 0 (Z.to_nat (ceil_div 7 2))).
Proof.
  intros in_axes x.
  eapply (shards_in_closed_form identity_fn 2 in_axes in_axes [x] []);
    [reflexivity | reflexivity | lia | lia | reflexivity].
Defined.

(** X2: in a successful run the executed shards tile the batch: they are
    non-empty, none is larger than [shard_size], each starts where the one
    before ends, the first starts at 0 and the last ends at [batch_size].
    Every batch index is thus processed by exactly one shard. *)
Theorem shards_tile_the_batch
    (fn : callable) (shard_size : Z) (in_axes out_axes : axes_spec)
    (args : list ndarray) (kw : kwargs_t) (in_axes_ : list axis_t)
    (batch_size : Z) (out : list ndarray) :
  _expand_axes in_axes args = Ok in_axes_ ->
  in_size_of args in_axes_ = Ok batch_size ->
  1 <= batch_size -> 1 <= shard_size ->
  value (mapped_fn fn shard_size in_axes out_axes args kw) = Ok out ->
  tiles 0 (shards (trace (mapped_fn fn shard_size in_axes out_axes args kw)))
        batch_size /\
  Forall (fun p => snd p <= shard_size)
         (shards (trace (mapped_fn fn shard_size in_axes out_axes args kw))).
Proof.
  intros Hax Hsz Hb Hs Hok.
  apply mapped_fn_schedule in Hok
    as (ax & sz & lss & Hax' & Hsz' & Hlss & -> & _).
  rewrite Hax in Hax'. injection Hax' as <-.
  rewrite Hsz in Hsz'. injection Hsz' as <-.
  rewrite last_shard_size_value in Hlss by exact Hs. injection Hlss as <-.
  rewrite shard_schedule_closed_form by assumption.
  pose proof (Z.div_mod batch_size shard_size ltac:(lia)) as Hdm.
  pose proof (Z.mod_pos_bound batch_size shard_size ltac:(lia)) as Hmb.
  pose proof (ceil_div_floor batch_size shard_size Hs) as Hc.
  assert (Hq : 0 <= batch_size / shard_size) by (apply Z.div_pos; lia).
  assert (Hcnt : Z.of_nat (Z.to_nat (ceil_div batch_size shard_size))
                 = ceil_div batch_size shard_size).
  { apply Z2Nat.id. rewrite Hc. destruct (_ =? 0); lia. }
  split.
  - pose proof (tiles_nth_shards batch_size shard_size
                  (Z.to_nat (ceil_div batch_size shard_size)) Hs 0%nat) as Ht.
    cbn [Nat.add Z.of_nat Z.mul] in Ht.
    rewrite Hcnt in Ht.
    replace (Z.min batch_size (ceil_div batch_size shard_size * shard_size))
      with batch_size in Ht.
    + apply Ht; [lia |].
      rewrite Hc. destruct (Z.eqb_spec (batch_size mod shard_size) 0); nia.
    + rewrite Hc. destruct (Z.eqb_spec (batch_size mod shard_size) 0); nia.
  - apply List.Forall_forall. intros p Hp. apply in_map_iff in Hp as (k & <- & _).
    cbn. lia.
Qed.

Lemma shards_tile_the_batch_witness :
  let in_axes := AxAll (Some 0%nat) in
  let x := of_list1 [1; 2; 3; 4; 5; 6; 7] in
  tiles 0 (shards (trace (mapped_fn identity_fn 2 in_axes in_axes [x] []))) 7 /\
  Forall (fun p => snd p <= 2)
         (shards (trace (mapped_fn identity_fn 2 in_axes in_axes [x] []))).
Proof.
  intros in_axes x.
  eapply (shards_tile_the_batch identity_fn 2 in_axes in_axes [x] []);
    [reflexivity | reflexivity | lia | lia | reflexivity].
Defined.

(** ** Probes *)

Lemma probes_app (l1 l2 : list event) :
  probes (l1 ++ l2) = probes l1 ++ probes l2.
Proof. apply flat_map_app. Qed.

Lemma compute_shard_no_probe fn args kw in_axes_ out_axes_ outputs s n :
  probes (trace (compute_shard fn args kw in_axes_ out_axes_ outputs s n)) = [].
Proof.
  rewrite compute_shard_trace, apply_fun_to_slice_trace.
  destruct (tree_map2 _ args in_axes_); reflexivity.
Qed.

Lemma scan_iteration_trace fn shard_size args kw in_axes_ out_axes_ outputs i :
  trace (scan_iteration fn shard_size args kw in_axes_ out_axes_ outputs i)
  = trace (compute_shard fn args kw in_axes_ out_axes_ outputs i shard_size).
Proof.
  unfold scan_iteration. rewrite trace_bind.
  destruct (value _); cbn; apply app_nil_r.
Qed.

Lemma scan_loop_no_probe fn shard_size args kw in_axes_ out_axes_ xs :
  forall outputs,
    probes (trace (scan_loop
                     (scan_iteration fn shard_size args kw in_axes_ out_axes_)
                     outputs xs)) = [].
Proof.
  induction xs as [| x xs IH]; intros outputs; [reflexivity |].
  cbn [scan_loop].
  rewrite trace_bind, probes_app, scan_iteration_trace, compute_shard_no_probe.
  destruct (value (scan_iteration _ _ _ _ _ _ _ _)) as [cy | e];
    [| reflexivity].
  rewrite trace_bind, probes_app, IH.
  destruct (value _); reflexivity.
Qed.

Lemma scan_no_probe fn shard_size args kw in_axes_ out_axes_ outputs xs :
  probes (trace (scan (scan_iteration fn shard_size args kw in_axes_ out_axes_)
                      outputs xs)) = [].
Proof.
  unfold scan. rewrite trace_bind, probes_app.
  cbn [trace tell snd value fst probes flat_map app].
  apply scan_loop_no_probe.
Qed.

Lemma probe_ok fn args kw in_axes_ s n sd :
  value (eval_shape (apply_fun_to_slice fn args kw in_axes_ s n)) = Ok sd ->
  probes (trace (eval_shape (apply_fun_to_slice fn args kw in_axes_ s n)))
  = [(s, n)].
Proof.
  rewrite eval_shape_value, eval_shape_trace. intros H.
  destruct (value (apply_fun_to_slice fn args kw in_axes_ s n)) as [ys | e] eqn:Hv;
    [| discriminate].
  apply apply_fun_to_slice_ok in Hv as (input_slice & _ & _ & ->).
  reflexivity.
Qed.

(** X3: in a successful run [fun] is probed under [hk.eval_shape] once on a
    slice of [last_shard_size] elements at offset 0 and, only if the batch is
    larger than a shard, once more on a slice of [shard_size] elements at
    offset 0. *)
Theorem probes_of_a_run
    (fn : callable) (shard_size : Z) (in_axes out_axes : axes_spec)
    (args : list ndarray) (kw : kwargs_t) (in_axes_ : list axis_t)
    (batch_size : Z) (out : list ndarray) :
  _expand_axes in_axes args = Ok in_axes_ ->
  in_size_of args in_axes_ = Ok batch_size ->
  1 <= batch_size -> 1 <= shard_size ->
  value (mapped_fn fn shard_size in_axes out_axes args kw) = Ok out ->
  probes (trace (mapped_fn fn shard_size in_axes out_axes args kw))
  = (0, if batch_size mod shard_size =? 0 then shard_size
        else batch_size mod shard_size)
    :: (if shard_size <? batch_size then [(0, shard_size)] else []).
Proof.
  intros Hax0 Hsz0 Hb Hs H.
  destruct (plan_facts batch_size shard_size Hb Hs)
    as (num & last & Hnum0 & Hlast0 & _ & _ & _ & Hpos & _).
  rewrite last_shard_size_value in Hlast0 by exact Hs.
  injection Hlast0 as Hlast0.
  unfold mapped_fn in *.
  bind_step H in_axes_' Hax.
  bind_step H in_size Hsize.
  bind_step H num_extra_shards Hnum.
  bind_step H last_shard_size Hlast.
  bind_step H remainder_shape_dtype Hrem.
  bind_step H out_axes_ Hout.
  bind_step H out_shapes Hshapes.
  bind_step H outputs Houtputs.
  bind_step H outputs' Hscan.
  cbn [value lift fst] in Hax, Hsize, Hnum, Hlast.
  rewrite Hax0 in Hax. injection Hax as <-.
  rewrite Hsz0 in Hsize. injection Hsize as <-.
  rewrite Hnum0 in Hnum. injection Hnum as <-.
  rewrite last_shard_size_value in Hlast by exact Hs.
  injection Hlast as <-.
  rewrite !probes_app, !trace_lift.
  rewrite (probe_ok _ _ _ _ _ _ _ Hrem).
  rewrite <- Hpos.
  assert (Hsecond :
    probes (trace
      (if 0 <? num
       then
        regular_shard_shape_dtype <-
        eval_shape (apply_fun_to_slice fn args kw in_axes_ 0 shard_size);;
        lift
          (tree_map3 (make_output_shape num) out_axes_
             (List.map sd_shape regular_shard_shape_dtype)
             (List.map sd_shape remainder_shape_dtype))
       else ret (List.map sd_shape remainder_shape_dtype)))
    = (if 0 <? num then [(0, shard_size)] else [])).
  { destruct (0 <? num); [| reflexivity].
    bind_step Hshapes regular Hreg.
    rewrite probes_app, trace_lift, (probe_ok _ _ _ _ _ _ _ Hreg).
    reflexivity. }
  rewrite Hsecond.
  assert (Hfull :
    probes (trace
      (if (0 <? length (arange 0 (batch_size - shard_size + 1) shard_size))%nat
       then
        r <- scan (scan_iteration fn shard_size args kw in_axes_ out_axes_)
               outputs (arange 0 (batch_size - shard_size + 1) shard_size);;
        ret r.1
       else ret outputs)) = []).
  { destruct (0 <? length _)%nat; [| reflexivity].
    rewrite trace_bind, probes_app, scan_no_probe.
    destruct (value (scan _ _ _)); reflexivity. }
  rewrite Hfull.
  assert (Hrest :
    probes (trace
      (if negb ((if batch_size mod shard_size =? 0 then shard_size
                 else batch_size mod shard_size) =? shard_size)
       then compute_shard fn args kw in_axes_ out_axes_ outputs'
              (batch_size - (if batch_size mod shard_size =? 0 then shard_size
                             else batch_size mod shard_size))
              (if batch_size mod shard_size =? 0 then shard_size
               else batch_size mod shard_size)
       else ret outputs')) = []).
  { destruct (negb _); [apply compute_shard_no_probe | reflexivity]. }
  rewrite Hrest.
  cbn [probes flat_map app]. rewrite !app_nil_r. reflexivity.
Qed.

Lemma probes_of_a_run_witness :
  let in_axes := AxAll (Some 0%nat) in
  let x := of_list1 [1; 2; 3; 4; 5; 6; 7] in
  probes (trace (mapped_fn identity_fn 2 in_axes in_axes [x] []))
  = (0, if 7 mod 2 =? 0 then 2 else 7 mod 2)
    :: (if 2 <? 7 then [(0, 2)] else []).
Proof.
  intros in_axes x.
  eapply (probes_of_a_run identity_fn 2 in_axes in_axes [x] []);
    [reflexivity | reflexivity | lia | lia | reflexivity].
Defined.

(** ** The sequential loop *)

Lemma value_lift {A : Type} (r : result A) : value (lift r) = r.
Proof. reflexivity. Qed.

Lemma scans_bind {A B : Type} (m : M A) (f : A -> M B) :
  scans (trace (bind m f))
  = scans (trace m)
    ++ match value m with Ok a => scans (trace (f a)) | Raise _ => [] end.
Proof.
  rewrite trace_bind, scans_app. destruct (value m); reflexivity.
Qed.

Lemma compute_shard_no_scan fn args kw in_axes_ out_axes_ outputs s n :
  scans (trace (compute_shard fn args kw in_axes_ out_axes_ outputs s n)) = [].
Proof.
  rewrite compute_shard_trace, apply_fun_to_slice_trace.
  destruct (tree_map2 _ args in_axes_); reflexivity.
Qed.

Lemma scan_loop_no_scan fn shard_size args kw in_axes_ out_axes_ xs :
  forall outputs,
    scans (trace (scan_loop
                    (scan_iteration fn shard_size args kw in_axes_ out_axes_)
                    outputs xs)) = [].
Proof.
  induction xs as [| x xs IH]; intros outputs; [reflexivity |].
  cbn [scan_loop].
  rewrite scans_bind, scan_iteration_trace, compute_shard_no_scan.
  destruct (value (scan_iteration _ _ _ _ _ _ _ _)) as [cy | e];
    [| reflexivity].
  rewrite scans_bind, IH.
  destruct (value _); reflexivity.
Qed.

Lemma probe_no_scan (thunk : M (list ndarray)) :
  scans (trace (eval_shape thunk)) = [].
Proof. rewrite eval_shape_trace. reflexivity. Qed.

(** X4: in every run, failed ones included, [hk.scan] is entered at most
    once and never over an empty range. *)
Theorem scan_entered_at_most_once_never_empty
    (fn : callable) (shard_size : Z) (in_axes out_axes : axes_spec)
    (args : list ndarray) (kw : kwargs_t) :
  scans (trace (mapped_fn fn shard_size in_axes out_axes args kw)) = [] \/
  exists x xs,
    scans (trace (mapped_fn fn shard_size in_axes out_axes args kw))
    = [x :: xs].
Proof.
  unfold mapped_fn.
  rewrite scans_bind, trace_lift, value_lift.
  destruct (_expand_axes in_axes args) as [in_axes_ | e]; [| left; reflexivity].
  rewrite scans_bind, trace_lift, value_lift.
  destruct (in_size_of args in_axes_) as [in_size | e]; [| left; reflexivity].
  rewrite scans_bind, trace_lift, value_lift.
  destruct (floordiv (in_size - 1) shard_size) as [num | e];
    [| left; reflexivity].
  rewrite scans_bind, trace_lift, value_lift.
  destruct (last_shard_size_of shard_size in_size) as [last | e];
    [| left; reflexivity].
  rewrite scans_bind, probe_no_scan.
  destruct (value (eval_shape _)) as [remainder_shape_dtype | e];
    [| left; reflexivity].
  rewrite scans_bind, trace_lift, value_lift.
  destruct (_expand_axes out_axes remainder_shape_dtype) as [out_axes_ | e];
    [| left; reflexivity].
  rewrite scans_bind.
  match goal with
  | |- context [scans (trace (if 0 <? num then ?A else ?B))] =>
      assert (Hshapes : scans (trace (if 0 <? num then A else B)) = [])
  end.
  { destruct (0 <? num); [| reflexivity].
    rewrite scans_bind, probe_no_scan.
    destruct (value (eval_shape _)); reflexivity. }
  rewrite Hshapes. clear Hshapes.
  match goal with
  | |- context [value (if 0 <? num then ?A else ?B)] =>
      destruct (value (if 0 <? num then A else B)) as [out_shapes | e];
        [| left; reflexivity]
  end.
  rewrite scans_bind, trace_lift, value_lift.
  destruct (tree_map2 allocate_buffer _ out_shapes) as [outputs | e];
    [| left; reflexivity].
  rewrite scans_bind.
  cbn [scans flat_map app].
  assert (Hlast : forall outputs',
    scans (trace
      (if negb (last =? shard_size)
       then compute_shard fn args kw in_axes_ out_axes_ outputs'
              (in_size - last) last
       else ret outputs')) = []).
  { intros outputs'.
    destruct (negb _); [apply compute_shard_no_scan | reflexivity]. }
  destruct (arange 0 (in_size - shard_size + 1) shard_size) as [| x xs].
  - left. cbn [length Nat.ltb Nat.leb trace ret snd value fst scans flat_map app].
    apply Hlast.
  - right. exists x, xs.
    cbn [length Nat.ltb Nat.leb].
    rewrite scans_bind. unfold scan at 1. rewrite scans_bind.
    cbn [trace tell snd value fst scans flat_map app].
    rewrite scan_loop_no_scan.
    assert (Htail : forall (m : M (list ndarray)),
              match value m with
              | Ok a =>
                  scans (trace
                    (if negb (last =? shard_size)
                     then compute_shard fn args kw in_axes_ out_axes_ a
                            (in_size - last) last
                     else ret a))
              | Raise _ => []
              end = []).
    { intros m. destruct (value m); [apply Hlast | reflexivity]. }
    rewrite Htail.
    destruct (value (scan _ _ _)); reflexivity.
Qed.

(** ** Errors raised before [fun] is called *)

Lemma bind_lift_ok {A B : Type} (a : A) (f : A -> M B) :
  bind (lift (Ok a)) f = f a.
Proof. unfold bind, lift. destruct (f a); reflexivity. Qed.

Lemma bind_lift_raise {A B : Type} (e : exn) (f : A -> M B) :
  bind (lift (Raise e : result A)) f = (Raise e, []).
Proof. reflexivity. Qed.

(** X5: a shard size of 0 makes the call raise [ZeroDivisionError], once the
    batch size is known and before [fun] is called or probed. *)
Theorem zero_shard_size_raises
    (fn : callable) (in_axes out_axes : axes_spec) (args : list ndarray)
    (kw : kwargs_t) (in_axes_ : list axis_t) (in_size : Z) :
  _expand_axes in_axes args = Ok in_axes_ ->
  in_size_of args in_axes_ = Ok in_size ->
  mapped_fn fn 0 in_axes out_axes args kw = (Raise ZeroDivisionError, []).
Proof.
  intros Hax Hsz. unfold mapped_fn.
  rewrite Hax, bind_lift_ok, Hsz, bind_lift_ok. reflexivity.
Qed.

Lemma zero_shard_size_raises_witness :
  mapped_fn identity_fn 0 (AxAll (Some 0%nat)) (AxAll (Some 0%nat))
            [of_list1 [1; 2; 3]] []
  = (Raise ZeroDivisionError, []).
Proof.
  eapply (zero_shard_size_raises identity_fn (AxAll (Some 0%nat))
            (AxAll (Some 0%nat)) [of_list1 [1; 2; 3]] []);
    reflexivity.
Defined.

(** X6: called without any argument leaf, the mapped function raises
    [ValueError] (from a specification that does not fit, or from [max] of
    an empty sequence) whatever the specification and the shard size are,
    and [fun] is not called. *)
Theorem no_argument_leaf_raises
    (fn : callable) (shard_size : Z) (in_axes out_axes : axes_spec)
    (kw : kwargs_t) :
  mapped_fn fn shard_size in_axes out_axes [] kw = (Raise ValueError, []).
Proof. destruct in_axes as [a | [| a l]]; reflexivity. Qed.

Lemma expand_axes_length {V : Type} (axes : axes_spec) (values : list V)
    (in_axes_ : list axis_t) :
  _expand_axes axes values = Ok in_axes_ -> length in_axes_ = length values.
Proof.
  unfold _expand_axes, flatten_axes. destruct axes as [a | l].
  - cbn [rbind]. intros [= <-].
    rewrite List.length_map. apply length_replicate.
  - destruct (Nat.eqb_spec (length l) (length values)) as [Heq | Hne];
      [| discriminate].
    cbn [rbind]. intros [= <-]. rewrite List.length_map. exact Heq.
Qed.

Lemma sequence_raises {A : Type} (e : exn) (l : list (result A)) :
  forall j : nat,
    Forall (fun r => forall e', r = Raise e' -> e' = e) l ->
    l !! j = Some (Raise e) ->
    sequence l = Raise e.
Proof.
  induction l as [| r l IH]; intros j Hall Hj; [destruct j; discriminate |].
  inversion Hall as [| r' l' Hr Hl]; subst.
  cbn [sequence]. destruct r as [a | e'].
  - destruct j as [| j]; [discriminate |].
    cbn [rbind]. rewrite (IH j Hl Hj). reflexivity.
  - rewrite (Hr e' eq_refl). reflexivity.
Qed.

(** X8: when the mapped axis of some argument leaf is not an axis of that
    leaf, the call raises [IndexError] and [fun] is not called. *)
Theorem axis_out_of_range_raises
    (fn : callable) (shard_size : Z) (in_axes out_axes : axes_spec)
    (args : list ndarray) (kw : kwargs_t) (in_axes_ : list axis_t)
    (j : nat) (a : ndarray) (n : nat) :
  _expand_axes in_axes args = Ok in_axes_ ->
  args !! j = Some a ->
  in_axes_ !! j = Some (Axis n) ->
  shape a !! n = None ->
  mapped_fn fn shard_size in_axes out_axes args kw = (Raise IndexError, []).
Proof.
  intros Hax Ha Hj Hn. unfold mapped_fn.
  rewrite Hax, bind_lift_ok.
  assert (Hsz : in_size_of args in_axes_ = Raise IndexError).
  { unfold in_size_of, tree_map2.
    rewrite (expand_axes_length _ _ _ Hax), Nat.eqb_refl.
    rewrite (sequence_raises IndexError _ j); [reflexivity | |].
    - apply List.Forall_forall. intros r Hr.
      apply list_elem_of_In, list_elem_of_lookup in Hr as [k Hk].
      rewrite lookup_zip_with in Hk.
      destruct (args !! k) as [ak |]; [| discriminate]. cbn in Hk.
      destruct (in_axes_ !! k) as [[| nk] |]; [| | discriminate];
        cbn in Hk; injection Hk as <-.
      + discriminate.
      + destruct (shape ak !! nk); [discriminate |].
        intros e' [= <-]. reflexivity.
    - rewrite lookup_zip_with, Ha. cbn. rewrite Hj. cbn. rewrite Hn.
      reflexivity. }
  rewrite Hsz. reflexivity.
Qed.

Lemma axis_out_of_range_raises_witness :
  mapped_fn identity_fn 2 (AxAll (Some 1%nat)) (AxAll (Some 0%nat))
            [of_list1 [1; 2; 3]] []
  = (Raise IndexError, []).
Proof.
  eapply (axis_out_of_range_raises identity_fn 2 (AxAll (Some 1%nat))
            (AxAll (Some 0%nat)) [of_list1 [1; 2; 3]] [] _ 0%nat);
    reflexivity.
Defined.

(** X9: when [fun] raises on the first probe, the call raises the same
    exception, and no shard has been executed and [hk.scan] has not been
    entered. *)
Theorem probe_error_propagates
    (fn : callable) (shard_size : Z) (in_axes out_axes : axes_spec)
    (args : list ndarray) (kw : kwargs_t) (in_axes_ : list axis_t)
    (in_size last_shard_size : Z) (input_slice : list ndarray) (e : exn) :
  _expand_axes in_axes args = Ok in_axes_ ->
  in_size_of args in_axes_ = Ok in_size ->
  shard_size <> 0 ->
  last_shard_size_of shard_size in_size = Ok last_shard_size ->
  tree_map2 (fun array axis => _maybe_slice array 0 last_shard_size axis)
            args in_axes_ = Ok input_slice ->
  value (fn input_slice kw) = Raise e ->
  value (mapped_fn fn shard_size in_axes out_axes args kw) = Raise e /\
  shards (trace (mapped_fn fn shard_size in_axes out_axes args kw)) = [] /\
  scans (trace (mapped_fn fn shard_size in_axes out_axes args kw)) = [] /\
  probes (trace (mapped_fn fn shard_size in_axes out_axes args kw))
  = [(0, last_shard_size)].
Proof.
  intros Hax Hsz Hs Hlast Hslice Hfn. unfold mapped_fn.
  rewrite Hax, bind_lift_ok, Hsz, bind_lift_ok.
  unfold floordiv. apply Z.eqb_neq in Hs. rewrite Hs.
  rewrite bind_lift_ok, Hlast, bind_lift_ok.
  assert (Hprobe :
    eval_shape (apply_fun_to_slice fn args kw in_axes_ 0 last_shard_size)
    = (Raise e,
       [EvEvalShape [EvCall 0 last_shard_size input_slice
                            (trace (fn input_slice kw))]])).
  { unfold apply_fun_to_slice. rewrite Hslice, bind_lift_ok.
    destruct (fn input_slice kw) as [r l]. cbn in Hfn. subst r.
    reflexivity. }
  rewrite Hprobe. repeat split; reflexivity.
Qed.

Lemma probe_error_propagates_witness :
  let failing : callable := fun _ _ => raise TypeError in
  let m := mapped_fn failing 2 (AxAll (Some 0%nat)) (AxAll (Some 0%nat))
                     [of_list1 [1; 2; 3]] [] in
  value m = Raise TypeError /\
  shards (trace m) = [] /\ scans (trace m) = [] /\ probes (trace m) = [(0, 1)].
Proof.
  intros failing m.
  eapply (probe_error_propagates failing 2 (AxAll (Some 0%nat))
            (AxAll (Some 0%nat)) [of_list1 [1; 2; 3]] []);
    [reflexivity | reflexivity | lia | reflexivity | reflexivity | reflexivity].
Defined.

(** ** A batch that fits in one shard *)

Section WholeBatchShard.

Variable fn : callable.
Variable kw : kwargs_t.
Variable x x_all y0 : ndarray.
Variable in_axis out_axis : nat.
Variable batch_size shard_size out_size : Z.
Hypothesis Hbatch : 1 <= batch_size <= shard_size.
Hypothesis Hx : shape x !! in_axis = Some batch_size.
Hypothesis Hslice : dynamic_slice_in_dim x 0 batch_size in_axis = Ok x_all.
Hypothesis Hfn : value (fn [x_all] kw) = Ok [y0].
Hypothesis Hy0 : shape y0 !! out_axis = Some out_size.

Lemma whole_slice_is_input : arr_eq x_all x.
Proof.
  unfold dynamic_slice_in_dim in Hslice. rewrite Hx in Hslice.
  replace ((0 <=? batch_size) && (batch_size <=? batch_size)) with true
    in Hslice by lia.
  rewrite clamp_start_in_range in Hslice by lia.
  injection Hslice as <-.
  split; [reflexivity |]. split.
  - cbn. apply list_insert_id. exact Hx.
  - intros idx _. cbn. f_equal. apply list_alter_id. intros c. lia.
Qed.

Lemma whole_batch_applied :
  value (apply_fun_to_slice fn [x] kw [Axis in_axis] 0 batch_size) = Ok [y0].
Proof.
  unfold apply_fun_to_slice. rewrite value_bind.
  cbn [value lift fst]. rewrite tree_map2_singleton. cbn [_maybe_slice].
  rewrite Hslice. cbn [rbind].
  destruct (fn [x_all] kw) as [r l]. exact Hfn.
Qed.

Lemma whole_batch_written :
  exists out,
    value (compute_shard fn [x] kw [Axis in_axis] [Axis out_axis]
                         [zeros (shape y0) (dtype y0)] 0 batch_size)
    = Ok [out] /\
    arr_eq out y0.
Proof.
  unfold compute_shard. rewrite value_bind, whole_batch_applied.
  cbn [value lift fst]. rewrite tree_map3_singleton.
  cbn [dynamic_update_slice_in_dim]. unfold lax_dynamic_update_slice_in_dim.
  cbn [shape dtype zeros]. rewrite Hy0, dtype_eqb_refl.
  assert (Hfits : fits (shape y0) (shape y0) = true).
  { rewrite <- (list_insert_id (shape y0) out_axis out_size Hy0) at 1.
    apply (fits_insert out_axis out_size out_size); [exact Hy0 | lia]. }
  rewrite Hfits. cbn [andb rbind].
  eexists. split; [reflexivity |].
  split; [reflexivity |]. split; [reflexivity |].
  cbn [shape item]. intros idx Hb.
  assert (Hc : clamp_start 0 out_size out_size = 0).
  { unfold clamp_start. cbn. lia. }
  rewrite Hc.
  assert (Hid : alter (fun c => c - 0) out_axis idx = idx).
  { apply list_alter_id. intros c. lia. }
  rewrite Hid.
  apply in_boundsb_spec in Hb. rewrite Hb. reflexivity.
Qed.

Lemma whole_batch_mapped :
  exists out,
    value (mapped_fn fn shard_size (AxAll (Some in_axis))
                     (AxAll (Some out_axis)) [x] kw) = Ok [out] /\
    arr_eq out y0.
Proof.
  destruct whole_batch_written as (out & Hout & Heq).
  exists out. split; [| exact Heq].
  assert (Hlast : last_shard_size_of shard_size batch_size = Ok batch_size).
  { rewrite last_shard_size_value by lia.
    destruct (Z.eq_dec batch_size shard_size) as [-> | Hne].
    - rewrite Z.mod_same by lia. reflexivity.
    - rewrite Z.mod_small by lia.
      replace (batch_size =? 0) with false by lia. reflexivity. }
  unfold mapped_fn.
  rewrite value_bind, value_lift, expand_axes_single.
  rewrite value_bind, value_lift, (in_size_single x in_axis batch_size Hx).
  rewrite value_bind, value_lift. unfold floordiv.
  replace (shard_size =? 0) with false by lia.
  rewrite Z.div_small by lia.
  rewrite value_bind, value_lift, Hlast.
  rewrite value_bind, eval_shape_value, whole_batch_applied.
  cbn [rmap rbind List.map].
  rewrite value_bind, value_lift, expand_axes_single.
  rewrite value_bind. cbn [Z.ltb Z.compare value ret fst].
  rewrite value_bind, value_lift.
  cbn [List.map shape_dtype_of sd_shape sd_dtype].
  rewrite tree_map2_singleton. cbn [allocate_buffer rbind].
  rewrite value_bind.
  destruct (Z.eq_dec batch_size shard_size) as [Heqs | Hne].
  - subst shard_size.
    rewrite arange_one_shard by lia.
    cbn [length Nat.ltb Nat.leb].
    rewrite value_bind. unfold scan. rewrite value_bind.
    cbn [value tell fst scan_loop].
    rewrite value_bind. unfold scan_iteration.
    rewrite value_bind, Hout.
    cbn [value ret fst snd bind]. rewrite Z.eqb_refl. reflexivity.
  - rewrite arange_small by lia.
    cbn [length Nat.ltb Nat.leb value ret fst].
    replace (batch_size =? shard_size) with false by lia.
    cbn [negb]. rewrite Z.sub_diag. exact Hout.
Qed.

End WholeBatchShard.

(** X10: when the whole batch fits in one shard ([1 <= batch_size <=
    shard_size]), the mapped function returns, element for element, what
    [fun] returns on the slice [0, batch_size) of its argument, which is the
    whole argument; this holds for every [fun], batch-wise or not. *)
Theorem single_shard_is_direct_application
    (fn : callable) (kw : kwargs_t) (x x_all y0 : ndarray)
    (in_axis out_axis : nat) (batch_size shard_size out_size : Z) :
  1 <= batch_size <= shard_size ->
  shape x !! in_axis = Some batch_size ->
  dynamic_slice_in_dim x 0 batch_size in_axis = Ok x_all ->
  value (fn [x_all] kw) = Ok [y0] ->
  shape y0 !! out_axis = Some out_size ->
  arr_eq x_all x /\
  exists out,
    value (mapped_fn fn shard_size (AxAll (Some in_axis))
                     (AxAll (Some out_axis)) [x] kw) = Ok [out] /\
    arr_eq out y0.
Proof.
  intros Hb Hx Hslice Hfn Hy0. split.
  - eapply whole_slice_is_input; eassumption.
  - eapply whole_batch_mapped; eassumption.
Qed.

Lemma single_shard_is_direct_application_witness :
  let x := of_list1 [10; 20; 30] in
  exists x_all y0,
    arr_eq x_all x /\
    exists out,
      value (mapped_fn flip_fn 5 (AxAll (Some 0%nat)) (AxAll (Some 0%nat))
                       [x] []) = Ok [out] /\
      arr_eq out y0.
Proof.
  intros x. do 2 eexists.
  eapply (single_shard_is_direct_application flip_fn [] x _ _ 0%nat 0%nat 3 5);
    [lia | reflexivity | reflexivity | reflexivity | reflexivity].
Defined.

(** ** Independence of the shard size *)

Lemma arr_eq_sym (a b : ndarray) : arr_eq a b -> arr_eq b a.
Proof.
  intros (Hd & Hs & Hi). split; [auto |]. split; [auto |].
  intros idx Hb. symmetry. apply Hi. rewrite Hs. exact Hb.
Qed.

Lemma arr_eq_trans (a b c : ndarray) : arr_eq a b -> arr_eq b c -> arr_eq a c.
Proof.
  intros (Hd1 & Hs1 & Hi1) (Hd2 & Hs2 & Hi2).
  split; [congruence |]. split; [congruence |].
  intros idx Hb. rewrite Hi1 by exact Hb. apply Hi2.
  rewrite <- Hs1. exact Hb.
Qed.

(** X11: for mapped axes counted from the front (non-negative) and a
    function that commutes with slicing along them, the result of the mapped
    function does not depend on the shard size: any two shard sizes [>= 1]
    give arrays equal element for element. *)
Theorem result_independent_of_shard_size
    (fn : callable) (kw : kwargs_t) (x y : ndarray) (in_axis out_axis : nat)
    (batch_size shard_size1 shard_size2 : Z) :
  1 <= batch_size -> 1 <= shard_size1 -> 1 <= shard_size2 ->
  shape x !! in_axis = Some batch_size ->
  shape y !! out_axis = Some batch_size ->
  slices_commute fn kw x in_axis y out_axis batch_size ->
  exists out1 out2,
    value (mapped_fn fn shard_size1 (AxAll (Some in_axis))
                     (AxAll (Some out_axis)) [x] kw) = Ok [out1] /\
    value (mapped_fn fn shard_size2 (AxAll (Some in_axis))
                     (AxAll (Some out_axis)) [x] kw) = Ok [out2] /\
    arr_eq out1 out2.
Proof.
  intros Hb Hs1 Hs2 Hx Hy Hcomm.
  destruct (mapped_fn_batchwise fn kw x y in_axis out_axis
              batch_size shard_size1 Hb Hs1 Hx Hy Hcomm) as (out1 & Hv1 & He1).
  destruct (mapped_fn_batchwise fn kw x y in_axis out_axis
              batch_size shard_size2 Hb Hs2 Hx Hy Hcomm) as (out2 & Hv2 & He2).
  exists out1, out2. split; [exact Hv1 |]. split; [exact Hv2 |].
  apply (arr_eq_trans out1 y out2 He1). apply arr_eq_sym. exact He2.
Qed.

Lemma result_independent_of_shard_size_witness :
  let x := of_list1 [10; 20; 30; 40; 50] in
  exists out1 out2,
    value (mapped_fn (add_const_fn 1) 2 (AxAll (Some 0%nat))
                     (AxAll (Some 0%nat)) [x] []) = Ok [out1] /\
    value (mapped_fn (add_const_fn 1) 3 (AxAll (Some 0%nat))
                     (AxAll (Some 0%nat)) [x] []) = Ok [out2] /\
    arr_eq out1 out2.
Proof.
  intros x.
  apply (result_independent_of_shard_size
           (add_const_fn 1) [] x (add_const 1 x) 0%nat 0%nat 5 2 3);
    [lia | lia | lia | reflexivity | reflexivity |].
  apply add_const_slices_commute. reflexivity.
Defined.

(** ** [inference_subbatch] in and out of initialisation mode *)

(** X12: for subbatch dimensions counted from the front (non-negative), one
    batched argument and a module that commutes with slicing (the
    non-batched arguments being passed whole), [inference_subbatch] returns
    in initialisation mode what the module returns on the whole batch, and
    outside initialisation mode an array equal to it element for element,
    whatever [subbatch_size >= 1] is. *)
Theorem inference_subbatch_same_in_both_modes
    (module : callable) (subbatch_size : Z) (x y : ndarray)
    (nonbatched_args : list ndarray)
    (input_subbatch_dim : nat) (output_subbatch_dim : option nat)
    (batch_size : Z) :
  1 <= batch_size -> 1 <= subbatch_size ->
  shape x !! input_subbatch_dim = Some batch_size ->
  value (module ([x] ++ nonbatched_args) []) = Ok [y] ->
  shape y !! output_dim_of input_subbatch_dim output_subbatch_dim
  = Some batch_size ->
  slices_commute (run_module module nonbatched_args) []
                 x input_subbatch_dim
                 y (output_dim_of input_subbatch_dim output_subbatch_dim)
                 batch_size ->
  value (inference_subbatch module subbatch_size [x] nonbatched_args
                            input_subbatch_dim output_subbatch_dim true)
  = Ok [y] /\
  exists out,
    value (inference_subbatch module subbatch_size [x] nonbatched_args
                              input_subbatch_dim output_subbatch_dim false)
    = Ok [out] /\
    arr_eq out y.
Proof.
  intros Hb Hs Hx Hmod Hy Hcomm. split; [exact Hmod |].
  destruct (mapped_fn_batchwise (run_module module nonbatched_args) [] x y
              input_subbatch_dim
              (output_dim_of input_subbatch_dim output_subbatch_dim)
              batch_size subbatch_size
              Hb Hs Hx Hy Hcomm) as (out & Hv & He).
  exists out. split; [| exact He].
  unfold inference_subbatch, sharded_apply.
  cbn [length Nat.ltb Nat.leb negb].
  rewrite value_bind. cbn [value ret fst]. exact Hv.
Qed.

Lemma add_offset_slices_commute (w x : ndarray) (axis : nat) (batch_size : Z) :
  shape x !! axis = Some batch_size ->
  slices_commute (run_module add_offset_fn [w]) [] x axis
                 (add_offset w x) axis batch_size.
Proof.
  intros Hx i n Hi Hn Hin.
  unfold dynamic_slice_in_dim. cbn [add_offset shape].
  rewrite Hx. replace ((0 <=? n) && (n <=? batch_size)) with true by lia.
  do 3 eexists. split; [reflexivity |]. split; [reflexivity |].
  split; [reflexivity |].
  split; [reflexivity |]. split; reflexivity.
Qed.

Lemma inference_subbatch_same_in_both_modes_witness :
  let x := of_list1 [10; 20; 30; 40; 50] in
  let w := of_list1 [7] in
  value (inference_subbatch add_offset_fn 2 [x] [w] 0 None true)
  = Ok [add_offset w x] /\
  exists out,
    value (inference_subbatch add_offset_fn 2 [x] [w] 0 None false)
    = Ok [out] /\
    arr_eq out (add_offset w x).
Proof.
  intros x w.
  apply (inference_subbatch_same_in_both_modes
           add_offset_fn 2 x (add_offset w x) [w] 0%nat None 5);
    [lia | lia | reflexivity | reflexivity | reflexivity |].
  apply add_offset_slices_commute. reflexivity.
Defined.

(** ** [sharded_map] *)

(** X13: outside initialisation mode and for mapped axes counted from the
    front (non-negative), when the vectorised function
    [hk.vmap(fun, in_axes, out_axes, split_rng=True)] commutes with slicing,
    the function that [sharded_map] returns gives on [x], whatever
    [shard_size >= 1] is, an array equal element for element to what the
    vectorised function gives on [x]. *)
Theorem sharded_map_equals_vmap
    (hk_vmap : callable -> axes_spec -> axes_spec -> bool -> callable)
    (fn : callable) (kw : kwargs_t) (x y : ndarray) (in_axis out_axis : nat)
    (batch_size shard_size : Z) :
  1 <= batch_size -> 1 <= shard_size ->
  shape x !! in_axis = Some batch_size ->
  value (hk_vmap fn (AxAll (Some in_axis)) (AxAll (Some out_axis)) true
                 [x] kw) = Ok [y] ->
  shape y !! out_axis = Some batch_size ->
  slices_commute
    (hk_vmap fn (AxAll (Some in_axis)) (AxAll (Some out_axis)) true) kw
    x in_axis y out_axis batch_size ->
  exists mapped out,
    sharded_map hk_vmap fn (Some shard_size) (AxAll (Some in_axis))
                (AxAll (Some out_axis)) false
    = (Ok mapped, []) /\
    value (mapped [x] kw) = Ok [out] /\
    arr_eq out y.
Proof.
  intros Hb Hs Hx _ Hy Hcomm.
  destruct (mapped_fn_batchwise
              (hk_vmap fn (AxAll (Some in_axis)) (AxAll (Some out_axis)) true)
              kw x y
              in_axis out_axis batch_size shard_size Hb Hs Hx Hy Hcomm)
    as (out & Hv & He).
  eexists. exists out. split; [reflexivity |]. split; assumption.
Qed.

Lemma sharded_map_equals_vmap_witness :
  let x := of_list1 [10; 20; 30; 40; 50] in
  let in_axes := AxAll (Some 0%nat) in
  exists mapped out,
    sharded_map vmap_of_elementwise (add_const_fn 1) (Some 2)
                in_axes in_axes false = (Ok mapped, []) /\
    value (mapped [x] []) = Ok [out] /\
    arr_eq out (add_const 1 x).
Proof.
  intros x in_axes.
  apply (sharded_map_equals_vmap vmap_of_elementwise (add_const_fn 1) []
           x (add_const 1 x) 0%nat 0%nat 5 2);
    [lia | lia | reflexivity | reflexivity | reflexivity |].
  apply add_const_slices_commute. reflexivity.
Defined.

(** ** The batch size *)

Lemma fold_max_spec (l : list Z) :
  forall z : Z,
    (z <= fold_left Z.max l z /\
     Forall (fun v => v <= fold_left Z.max l z) l) /\
    (fold_left Z.max l z = z \/ In (fold_left Z.max l z) l).
Proof.
  induction l as [| v l IH]; intros z; cbn [fold_left].
  - repeat split; [lia | constructor | left; reflexivity].
  - destruct (IH (Z.max z v)) as ((Hz & Hall) & Hin).
    repeat split.
    + lia.
    + constructor; [lia | exact Hall].
    + destruct Hin as [Heq | Hin]; [| right; right; exact Hin].
      rewrite Heq. destruct (Z.max_spec z v) as [[_ ->] | [_ ->]];
        [right; left; reflexivity | left; reflexivity].
Qed.

Lemma sequence_lookup_inv {A : Type} (l : list (result A)) :
  forall (zs : list A) (j : nat) (z : A),
    sequence l = Ok zs -> zs !! j = Some z -> l !! j = Some (Ok z).
Proof.
  induction l as [| r l IH]; intros zs j z Hs Hj.
  - injection Hs as <-. destruct j; discriminate.
  - cbn [sequence] in Hs.
    destruct r as [z0 | e]; [| discriminate]. cbn [rbind] in Hs.
    destruct (sequence l) as [zs' | e]; [| discriminate]. cbn [rbind] in Hs.
    injection Hs as <-.
    destruct j as [| j].
    + injection Hj as <-. reflexivity.
    + apply (IH zs' j z eq_refl Hj).
Qed.

(** X14: the batch size the mapped function works with is the largest of
    the sizes of the argument leaves along their mapped axes, a broadcast
    leaf counting as -1: no leaf is larger, and some leaf has that size.
    Leaves of different sizes are not rejected. *)
Theorem in_size_is_largest_leaf_size
    (args : list ndarray) (in_axes_ : list axis_t) (in_size : Z) :
  in_size_of args in_axes_ = Ok in_size ->
  (forall j a axis d,
      args !! j = Some a -> in_axes_ !! j = Some axis ->
      _maybe_get_size a axis = Ok d -> d <= in_size) /\
  (exists j a axis,
      args !! j = Some a /\ in_axes_ !! j = Some axis /\
      _maybe_get_size a axis = Ok in_size).
Proof.
  unfold in_size_of.
  destruct (tree_map2 _maybe_get_size args in_axes_) as [sizes | e] eqn:Hmap;
    [| discriminate].
  cbn [rbind]. destruct sizes as [| z sizes]; [discriminate |].
  cbn [max_]. intros [= <-].
  destruct (fold_max_spec sizes z) as ((Hz & Hall) & Hin).
  assert (Hbound : forall v, In v (z :: sizes) ->
                             v <= fold_left Z.max sizes z).
  { intros v [<- | Hv]; [exact Hz |].
    rewrite List.Forall_forall in Hall. apply Hall. exact Hv. }
  split.
  - intros j a axis d Ha Hax Hd.
    destruct (tree_map2_lookup _ _ _ _ _ _ _ Hmap Ha Hax) as (d' & Hd' & Hj).
    rewrite Hd in Hd'. injection Hd' as <-.
    apply Hbound. apply list_elem_of_In. apply list_elem_of_lookup. eauto.
  - assert (Hmem : In (fold_left Z.max sizes z) (z :: sizes)).
    { destruct Hin as [-> | Hin]; [left; reflexivity | right; exact Hin]. }
    apply list_elem_of_In, list_elem_of_lookup in Hmem as [j Hj].
    unfold tree_map2 in Hmap.
    destruct (Nat.eqb _ _); [| discriminate].
    apply (sequence_lookup_inv _ _ j _ Hmap) in Hj.
    apply lookup_zip_with_Some in Hj as (a & axis & Hf & Ha & Hax).
    exists j, a, axis. auto.
Qed.

Lemma in_size_is_largest_leaf_size_witness :
  let x := of_list1 [1; 2; 3] in
  let w := of_list1 [1; 2; 3; 4; 5] in
  let in_axes_ := [Axis 0; PROXY; Axis 0] in
  (forall j a axis d,
      [x; x; w] !! j = Some a -> in_axes_ !! j = Some axis ->
      _maybe_get_size a axis = Ok d -> d <= 5) /\
  (exists j a axis,
      [x; x; w] !! j = Some a /\ in_axes_ !! j = Some axis /\
      _maybe_get_size a axis = Ok 5).
Proof.
  intros x w in_axes_.
  apply (in_size_is_largest_leaf_size [x; x; w] in_axes_ 5). reflexivity.
Defined.

(** ** Runs that fail *)







(** ** The structure of the result *)

Lemma sequence_length {A : Type} (l : list (result A)) :
  forall zs : list A, sequence l = Ok zs -> length zs = length l.
Proof.
  induction l as [| r l IH]; intros zs Hs.
  - injection Hs as <-. reflexivity.
  - cbn [sequence] in Hs.
    destruct r as [z0 | e]; [| discriminate]. cbn [rbind] in Hs.
    destruct (sequence l) as [zs' | e]; [| discriminate]. cbn [rbind] in Hs.
    injection Hs as <-. cbn [length]. f_equal. apply IH. reflexivity.
Qed.

Lemma tree_map2_ok_length {A B C : Type} (f : A -> B -> result C)
    (xs : list A) (ys : list B) (zs : list C) :
  tree_map2 f xs ys = Ok zs ->
  length xs = length ys /\ length zs = length xs.
Proof.
  unfold tree_map2.
  destruct (Nat.eqb_spec (length xs) (length ys)) as [Hlen | Hlen];
    [| discriminate].
  intros Hs. apply sequence_length in Hs.
  rewrite length_zip_with in Hs. split; [exact Hlen | lia].
Qed.

Lemma tree_map3_ok_inv {A B C D : Type} (f : A -> B -> C -> result D)
    (xs : list A) (ys : list B) (zs : list C) (ws : list D) :
  tree_map3 f xs ys zs = Ok ws ->
  length xs = length ys /\ length xs = length zs /\ length ws = length xs /\
  forall j w, ws !! j = Some w ->
    exists x y z, xs !! j = Some x /\ ys !! j = Some y /\ zs !! j = Some z /\
                  f x y z = Ok w.
Proof.
  unfold tree_map3.
  destruct (Nat.eqb_spec (length xs) (length ys)) as [Hxy | Hxy];
    [| discriminate].
  destruct (Nat.eqb_spec (length xs) (length zs)) as [Hxz | Hxz];
    [| discriminate].
  cbn [andb]. intros Hs.
  split; [exact Hxy |]. split; [exact Hxz |]. split.
  - apply sequence_length in Hs.
    rewrite length_zip_with, length_zip in Hs. lia.
  - intros j w Hj.
    apply (sequence_lookup_inv _ _ j _ Hs) in Hj.
    apply lookup_zip_with_Some in Hj as (x & yz & Hf & Hx & Hyz).
    apply lookup_zip_with_Some in Hyz as (y & z & -> & Hy & Hz).
    exists x, y, z. cbn in Hf. auto.
Qed.

Lemma update_keeps_shape_dtype (full_array update : ndarray) (axis : axis_t)
    (i : Z) (w : ndarray) :
  dynamic_update_slice_in_dim full_array update axis i = Ok w ->
  shape_dtype_of w = shape_dtype_of full_array.
Proof.
  unfold dynamic_update_slice_in_dim, lax_dynamic_update_slice_in_dim.
  destruct axis as [| n]; [discriminate |].
  destruct (shape full_array !! n); [| discriminate].
  destruct (shape update !! n); [| discriminate].
  destruct (_ && _); [| discriminate].
  intros [= <-]. reflexivity.
Qed.

Lemma compute_shard_keeps_shape_dtype
    fn args kw in_axes_ out_axes_ outputs s n out :
  value (compute_shard fn args kw in_axes_ out_axes_ outputs s n) = Ok out ->
  List.map shape_dtype_of out = List.map shape_dtype_of outputs /\
  length outputs = length out_axes_.
Proof.
  unfold compute_shard. intros H.
  apply bind_ok in H as (slice_out & _ & H & _).
  cbn [value lift fst] in H.
  apply tree_map3_ok_inv in H as (Hlen1 & Hlen2 & Hlen3 & Hall).
  split; [| exact Hlen2].
  apply list_eq. intros j. rewrite !lookup_map.
  destruct (out !! j) as [w |] eqn:Hw.
  - destruct (Hall j w Hw) as (x & y & z & Hx & _ & _ & Hf).
    rewrite Hx. cbn. f_equal. apply (update_keeps_shape_dtype _ _ _ _ _ Hf).
  - apply lookup_ge_None in Hw. rewrite Hlen3 in Hw.
    apply lookup_ge_None in Hw. rewrite Hw. reflexivity.
Qed.

Lemma scan_loop_keeps_shape_dtype fn shard_size args kw in_axes_ out_axes_ xs :
  forall outputs r,
    value (scan_loop (scan_iteration fn shard_size args kw in_axes_ out_axes_)
                     outputs xs) = Ok r ->
    List.map shape_dtype_of (fst r) = List.map shape_dtype_of outputs.
Proof.
  induction xs as [| x xs IH]; intros outputs r H.
  - injection H as <-. reflexivity.
  - cbn [scan_loop] in H.
    apply bind_ok in H as (cy & Hcy & H & _).
    apply bind_ok in H as (cys & Hcys & H & _).
    injection H as <-. cbn [fst].
    rewrite (IH _ _ Hcys).
    unfold scan_iteration in Hcy.
    apply bind_ok in Hcy as (o & Ho & Hcy & _).
    injection Hcy as <-. cbn [fst].
    apply (compute_shard_keeps_shape_dtype _ _ _ _ _ _ _ _ _ Ho).
Qed.

Lemma allocated_shape_dtype (dts : list dtype_t) (shps : list (list Z))
    (outputs : list ndarray) :
  tree_map2 allocate_buffer dts shps = Ok outputs ->
  List.map dtype outputs = dts /\ List.map shape outputs = shps.
Proof.
  intros H.
  destruct (tree_map2_ok_length _ _ _ _ H) as [Hlen1 Hlen2].
  assert (Hj : forall j o, outputs !! j = Some o ->
             exists dt shp, dts !! j = Some dt /\ shps !! j = Some shp /\
                            o = zeros shp dt).
  { intros j o Ho. unfold tree_map2 in H.
    destruct (Nat.eqb _ _); [| discriminate].
    apply (sequence_lookup_inv _ _ j _ H) in Ho.
    apply lookup_zip_with_Some in Ho as (dt & shp & Hf & Hdt & Hshp).
    injection Hf as ->. eauto. }
  split; apply list_eq; intros j; rewrite lookup_map;
    destruct (outputs !! j) as [o |] eqn:Ho.
  - destruct (Hj j o Ho) as (dt & shp & -> & _ & ->). reflexivity.
  - apply lookup_ge_None in Ho. symmetry. apply lookup_ge_None. lia.
  - destruct (Hj j o Ho) as (dt & shp & _ & -> & ->). reflexivity.
  - apply lookup_ge_None in Ho. symmetry. apply lookup_ge_None. lia.
Qed.

(** X17: the dtypes and shapes of the result are fixed by the probes alone,
    whatever [fun] returns on the shards: the result has one leaf per leaf
    of the first probe, with the dtype found there, and its shapes are those
    found there when there is no extra shard, and otherwise those that
    [make_output_shape] computes from the two probes. *)
Theorem result_structure_fixed_by_probes
    (fn : callable) (shard_size : Z) (in_axes out_axes : axes_spec)
    (args : list ndarray) (kw : kwargs_t) (in_axes_ : list axis_t)
    (in_size last_shard_size : Z) (out : list ndarray) :
  _expand_axes in_axes args = Ok in_axes_ ->
  in_size_of args in_axes_ = Ok in_size ->
  last_shard_size_of shard_size in_size = Ok last_shard_size ->
  value (mapped_fn fn shard_size in_axes out_axes args kw) = Ok out ->
  exists probe num_extra_shards,
    value (eval_shape (apply_fun_to_slice fn args kw in_axes_ 0
                                          last_shard_size)) = Ok probe /\
    floordiv (in_size - 1) shard_size = Ok num_extra_shards /\
    List.map dtype out = List.map sd_dtype probe /\
    ((num_extra_shards <= 0 /\ List.map shape out = List.map sd_shape probe) \/
     (0 < num_extra_shards /\
      exists regular out_axes_,
        value (eval_shape (apply_fun_to_slice fn args kw in_axes_ 0
                                              shard_size)) = Ok regular /\
        _expand_axes out_axes probe = Ok out_axes_ /\
        tree_map3 (make_output_shape num_extra_shards) out_axes_
                  (List.map sd_shape regular) (List.map sd_shape probe)
        = Ok (List.map shape out))).
Proof.
  intros Hax0 Hsz0 Hlast0 H. unfold mapped_fn in H.
  apply bind_ok in H as (in_axes_' & Hax & H & _).
  apply bind_ok in H as (in_size' & Hsize & H & _).
  apply bind_ok in H as (num & Hnum & H & _).
  apply bind_ok in H as (last' & Hlast & H & _).
  apply bind_ok in H as (probe & Hprobe & H & _).
  apply bind_ok in H as (out_axes_ & Hout & H & _).
  apply bind_ok in H as (out_shapes & Hshapes & H & _).
  apply bind_ok in H as (outputs & Houtputs & H & _).
  apply bind_ok in H as (outputs' & Hscan & H & _).
  cbn [value lift fst] in Hax, Hsize, Hnum, Hlast, Hout, Houtputs.
  rewrite Hax0 in Hax. injection Hax as <-.
  rewrite Hsz0 in Hsize. injection Hsize as <-.
  rewrite Hlast0 in Hlast. injection Hlast as <-.
  exists probe, num. split; [exact Hprobe |]. split; [exact Hnum |].
  destruct (allocated_shape_dtype _ _ _ Houtputs) as [Hdt Hshp].
  (* the buffers keep their dtype and shape through the shards *)
  assert (Hfull : List.map shape_dtype_of outputs'
                  = List.map shape_dtype_of outputs).
  { destruct (0 <? length _)%nat.
    - apply bind_ok in Hscan as (r & Hr & Hscan & _).
      injection Hscan as <-.
      unfold scan in Hr. apply bind_ok in Hr as (u & _ & Hr & _).
      apply (scan_loop_keeps_shape_dtype _ _ _ _ _ _ _ _ _ Hr).
    - injection Hscan as <-. reflexivity. }
  assert (Hfinal : List.map shape_dtype_of out
                   = List.map shape_dtype_of outputs).
  { rewrite <- Hfull. destruct (negb _).
    - apply (compute_shard_keeps_shape_dtype _ _ _ _ _ _ _ _ _ H).
    - injection H as <-. reflexivity. }
  assert (Hdtype : List.map dtype out = List.map dtype outputs).
  { apply (f_equal (List.map sd_dtype)) in Hfinal.
    rewrite !List.map_map in Hfinal. exact Hfinal. }
  assert (Hshape : List.map shape out = List.map shape outputs).
  { apply (f_equal (List.map sd_shape)) in Hfinal.
    rewrite !List.map_map in Hfinal. exact Hfinal. }
  rewrite Hdtype, Hdt, Hshape, Hshp. split; [reflexivity |].
  destruct (Z.ltb_spec 0 num) as [Hpos | Hneg].
  - right. split; [exact Hpos |].
    apply bind_ok in Hshapes as (regular & Hreg & Hshapes & _).
    exists regular, out_axes_. auto.
  - left. split; [exact Hneg |]. injection Hshapes as <-. reflexivity.
Qed.

Lemma result_structure_fixed_by_probes_witness :
  let x := of_list1 [1; 2; 3; 4; 5; 6; 7] in
  let in_axes := AxAll (Some 0%nat) in
  exists out probe num_extra_shards,
    value (eval_shape (apply_fun_to_slice flip_fn [x] [] [Axis 0] 0 1))
    = Ok probe /\
    floordiv (7 - 1) 2 = Ok num_extra_shards /\
    List.map dtype out = List.map sd_dtype probe /\
    ((num_extra_shards <= 0 /\ List.map shape out = List.map sd_shape probe) \/
     (0 < num_extra_shards /\
      exists regular out_axes_,
        value (eval_shape (apply_fun_to_slice flip_fn [x] [] [Axis 0] 0 2))
        = Ok regular /\
        _expand_axes in_axes probe = Ok out_axes_ /\
        tree_map3 (make_output_shape num_extra_shards) out_axes_
                  (List.map sd_shape regular) (List.map sd_shape probe)
        = Ok (List.map shape out))).
Proof.
  intros x in_axes. eexists.
  eapply (result_structure_fixed_by_probes flip_fn 2 in_axes in_axes [x] []);
    reflexivity.
Defined.

(** ** Output axes *)

(** What a successful run went through. *)
Lemma mapped_fn_ok_inv fn shard_size in_axes out_axes args kw out :
  value (mapped_fn fn shard_size in_axes out_axes args kw) = Ok out ->
  exists in_axes_ in_size num last probe out_axes_ out_shapes outputs outputs',
    _expand_axes in_axes args = Ok in_axes_ /\
    in_size_of args in_axes_ = Ok in_size /\
    floordiv (in_size - 1) shard_size = Ok num /\
    last_shard_size_of shard_size in_size = Ok last /\
    value (eval_shape (apply_fun_to_slice fn args kw in_axes_ 0 last))
    = Ok probe /\
    _expand_axes out_axes probe = Ok out_axes_ /\
    tree_map2 allocate_buffer (List.map sd_dtype probe) out_shapes
    = Ok outputs /\
    value (if (0 <? length (arange 0 (in_size - shard_size + 1) shard_size))%nat
           then
             r <- scan (scan_iteration fn shard_size args kw in_axes_ out_axes_)
                    outputs (arange 0 (in_size - shard_size + 1) shard_size) ;;
             ret (fst r)
           else ret outputs) = Ok outputs' /\
    value (if negb (last =? shard_size)
           then compute_shard fn args kw in_axes_ out_axes_ outputs'
                  (in_size - last) last
           else ret outputs') = Ok out.
Proof.
  unfold mapped_fn. intros H.
  apply bind_ok in H as (in_axes_ & Hax & H & _).
  apply bind_ok in H as (in_size & Hsize & H & _).
  apply bind_ok in H as (num & Hnum & H & _).
  apply bind_ok in H as (last & Hlast & H & _).
  apply bind_ok in H as (probe & Hprobe & H & _).
  apply bind_ok in H as (out_axes_ & Hout & H & _).
  apply bind_ok in H as (out_shapes & Hshapes & H & _).
  apply bind_ok in H as (outputs & Houtputs & H & _).
  apply bind_ok in H as (outputs' & Hscan & H & _).
  exists in_axes_, in_size, num, last, probe, out_axes_, out_shapes,
         outputs, outputs'.
  repeat split; assumption.
Qed.

Lemma compute_shard_proxy fn args kw in_axes_ out_axes_ outputs s n out :
  value (compute_shard fn args kw in_axes_ out_axes_ outputs s n) = Ok out ->
  Forall (fun axis => axis = PROXY) out_axes_ ->
  out_axes_ = [].
Proof.
  unfold compute_shard. intros H Hall.
  apply bind_ok in H as (slice_out & _ & H & _).
  cbn [value lift fst] in H.
  apply tree_map3_ok_inv in H as (Hlen1 & Hlen2 & Hlen3 & Hj).
  destruct out_axes_ as [| axis rest]; [reflexivity | exfalso].
  destruct out as [| w out]; [cbn in *; lia |].
  destruct (Hj 0%nat w eq_refl) as (x & y & z & _ & _ & Hz & Hf).
  injection Hz as <-.
  inversion Hall as [| ? ? Haxis _]; subst. discriminate.
Qed.

(** X15: [None] is not usable as an output axis.  With [out_axes=None] a run
    over a batch of one element or more never returns an array: it can only
    succeed when [fun] has no output leaf at all. *)
Theorem none_out_axes_returns_no_array
    (fn : callable) (shard_size : Z) (in_axes : axes_spec)
    (args : list ndarray) (kw : kwargs_t) (in_axes_ : list axis_t)
    (batch_size : Z) (out : list ndarray) :
  _expand_axes in_axes args = Ok in_axes_ ->
  in_size_of args in_axes_ = Ok batch_size ->
  1 <= batch_size -> 1 <= shard_size ->
  value (mapped_fn fn shard_size in_axes (AxAll None) args kw) = Ok out ->
  out = [].
Proof.
  intros Hax0 Hsz0 Hb Hs H.
  apply mapped_fn_ok_inv in H
    as (ax & sz & num & last & probe & out_axes_ & out_shapes & outputs
        & outputs' & Hax & Hsz & _ & Hlast & _ & Hout & Houtputs & Hscan & H).
  rewrite Hax0 in Hax. injection Hax as <-.
  rewrite Hsz0 in Hsz. injection Hsz as <-.
  rewrite last_shard_size_value in Hlast by exact Hs. injection Hlast as <-.
  assert (Hproxy : Forall (fun axis => axis = PROXY) out_axes_).
  { unfold _expand_axes, flatten_axes in Hout. cbn [rbind] in Hout.
    injection Hout as <-.
    apply List.Forall_forall. intros axis Hin.
    apply in_map_iff in Hin as (o & <- & Hin).
    apply list_elem_of_In, elem_of_replicate in Hin as [-> _]. reflexivity. }
  assert (Hlen : length outputs = length out_axes_).
  { destruct (tree_map2_ok_length _ _ _ _ Houtputs) as [_ ->].
    rewrite List.length_map. symmetry.
    apply (expand_axes_length _ _ _ Hout). }
  assert (Hfull : List.map shape_dtype_of outputs'
                  = List.map shape_dtype_of outputs
                  /\ (arange 0 (batch_size - shard_size + 1) shard_size <> []
                      -> out_axes_ = [])).
  { destruct (arange 0 (batch_size - shard_size + 1) shard_size)
      as [| x xs].
    - injection Hscan as <-. split; [reflexivity | congruence].
    - cbn [length Nat.ltb Nat.leb] in Hscan.
      apply bind_ok in Hscan as (r & Hr & Hscan & _).
      injection Hscan as <-.
      unfold scan in Hr. apply bind_ok in Hr as (u & _ & Hr & _).
      split; [apply (scan_loop_keeps_shape_dtype _ _ _ _ _ _ _ _ _ Hr) |].
      intros _. cbn [scan_loop] in Hr.
      apply bind_ok in Hr as (cy & Hcy & _ & _).
      unfold scan_iteration in Hcy.
      apply bind_ok in Hcy as (o & Ho & _ & _).
      apply (compute_shard_proxy _ _ _ _ _ _ _ _ _ Ho Hproxy). }
  destruct Hfull as [Hfull Hscanned].
  assert (Hnone : out_axes_ = []).
  { destruct (Z.eqb_spec (batch_size mod shard_size) 0) as [Hr | Hr].
    - apply Hscanned.
      rewrite arange_full_shards by assumption.
      pose proof (Z.div_mod batch_size shard_size ltac:(lia)) as Hdm.
      assert (Hq : 1 <= batch_size / shard_size) by nia.
      destruct (Z.to_nat (batch_size / shard_size)) eqn:Hn; [lia |].
      discriminate.
    - replace (batch_size mod shard_size =? shard_size) with false in H.
      + cbn [negb] in H.
        apply (compute_shard_proxy _ _ _ _ _ _ _ _ _ H Hproxy).
      + pose proof (Z.mod_pos_bound batch_size shard_size ltac:(lia)). lia. }
  assert (Hout_len : length out = length outputs').
  { destruct (negb _).
    - destruct (compute_shard_keeps_shape_dtype _ _ _ _ _ _ _ _ _ H)
        as [Heq _].
      apply (f_equal length) in Heq. rewrite !List.length_map in Heq.
      exact Heq.
    - injection H as <-. reflexivity. }
  apply (f_equal length) in Hfull. rewrite !List.length_map in Hfull.
  rewrite Hnone in Hlen. cbn in Hlen.
  destruct out; [reflexivity | cbn in Hout_len; lia].
Qed.

Lemma none_out_axes_returns_no_array_witness :
  let silent : callable := fun _ _ => ret [] in
  exists out,
    value (mapped_fn silent 2 (AxAll (Some 0%nat)) (AxAll None)
                     [of_list1 [1; 2; 3]] []) = Ok out /\
    out = [].
Proof.
  intros silent. eexists. split; [reflexivity |].
  eapply (none_out_axes_returns_no_array
            silent 2 (AxAll (Some 0%nat)) [of_list1 [1; 2; 3]] []
            [Axis 0] 3);
    [reflexivity | reflexivity | lia | lia | reflexivity].
Defined.

